(** * presigned-tx-test-middleware: wire codec, decoder registry, broadcast
      pipeline and generic query dispatcher

    A shallow embedding of [cosmos-client.ts] (hex decoding, byte-map
    reconstruction, message decoding, [broadcastSignedTx]) and of
    [index.ts] ([getQueryService], [queryAny]).

    Conventions of the embedding.
    - A JavaScript string is a [string], which covers the strings whose
      UTF-16 code units are all below 256; where the characters of the
      input matter beyond that (hex decoding), module [Utf16] embeds the
      same code on sequences of arbitrary code units. A [Uint8Array] is a
      [list Z] whose elements lie in [0, 255].
    - A thrown value is an [Error] object carrying its [message]; a
      computation that may throw returns a [result].
    - Calls to the outside world (the node, the service methods) are
      recorded in a trace of events, so that "is invoked", "before" and
      "exactly once" are statements about that trace. *)

From Stdlib Require Import ZArith Lia Ascii String Sorting.Sorted Sorting.Permutation.
From stdpp Require Import base option strings list sorting gmap pretty.

Local Open Scope Z_scope.

(** ** JavaScript preliminaries *)

Module Js.

(** [Error] objects: only the [message] is ever read by the program. *)
Record Error : Type := mkError { message : string }.

(** The outcome of a call that either returns or throws. *)
Inductive result (A : Type) : Type :=
  | Ok (a : A)
  | Throw (e : Error).
Arguments Ok {A} a.
Arguments Throw {A} e.

Definition is_ok {A} (r : result A) : bool :=
  match r with Ok _ => true | Throw _ => false end.

(** [try { m } catch (e) { h e }] for code without outside effects. *)
Definition catch {A} (m : result A) (h : Error -> result A) : result A :=
  match m with
  | Ok a => Ok a
  | Throw e => h e
  end.

Definition rbind {A B} (m : result A) (f : A -> result B) : result B :=
  match m with
  | Ok a => f a
  | Throw e => Throw e
  end.

(** A property value as the nullish-coalescing operator sees it. *)
Inductive jsvalue : Type :=
  | Undefined
  | Null
  | Str (s : string).

(** [a ?? b] *)
Definition coalesce (a b : jsvalue) : jsvalue :=
  match a with
  | Undefined | Null => b
  | Str _ => a
  end.

Definition is_nullish (a : jsvalue) : bool :=
  match a with Undefined | Null => true | Str _ => false end.

(** JavaScript numbers, as far as the program meets them: integers and
    [NaN]. *)
Inductive number : Type :=
  | NaN
  | Num (n : Z).

(** [a - b] *)
Definition sub (a b : number) : number :=
  match a, b with
  | Num x, Num y => Num (x - y)
  | _, _ => NaN
  end.

(** [String(n)], also the property key a number is converted to. *)
Definition number_to_string (n : number) : string :=
  match n with
  | NaN => "NaN"
  | Num z => pretty z
  end.

(** [s || d] on strings: the empty string is falsy. *)
Definition or_default (s d : string) : string :=
  if decide (s = "") then d else s.

(** [Array.prototype.join] *)
Fixpoint join (sep : string) (l : list string) : string :=
  match l with
  | [] => ""
  | [x] => x
  | x :: rest => x +:+ sep +:+ join sep rest
  end.

End Js.

Import Js.

(** ** Wire codec: hexadecimal strings *)

(** Value of one hexadecimal digit, in either case; [None] for any other
    character. *)
Definition unhex (c : ascii) : option Z :=
  let n := Z.of_nat (nat_of_ascii c) in
  if decide (48 <= n <= 57) then Some (n - 48)
  else if decide (97 <= n <= 102) then Some (n - 87)
  else if decide (65 <= n <= 70) then Some (n - 55)
  else None.

(** [Buffer.from(s, "hex")] on a string of 8-bit characters: pairs of
    digits are decoded from the left; decoding stops, without an error, at
    the first pair holding a character that is no hexadecimal digit, and a
    trailing single character is dropped. [Utf16.hexDecode] is the decoder
    on arbitrary code units. *)
Fixpoint hexDecode (s : string) : list Z :=
  match s with
  | String a (String b rest) =>
      match unhex a, unhex b with
      | Some hi, Some lo => Z.lor (Z.shiftl hi 4) lo :: hexDecode rest
      | _, _ => []
      end
  | _ => []
  end.

(** [s.replace(/^0x/, "")]: one leading, lower-case "0x" is removed. *)
Definition strip0x (s : string) : string :=
  match s with
  | String "0"%char (String "x"%char rest) => rest
  | _ => s
  end.

(** The string is made of hexadecimal digits only. *)
Fixpoint all_hex (s : string) : bool :=
  match s with
  | EmptyString => true
  | String a rest => bool_decide (is_Some (unhex a)) && all_hex rest
  end.

(** What the spec calls well-formed hex: digits only, an even number of
    them. *)
Definition well_formed_hex (s : string) : bool :=
  all_hex s && Nat.even (String.length s).

(** ** Wire codec: byte arrays represented as index-keyed objects *)

(** An object, as the list of its own enumerable properties in the order
    [Object.keys] reports them. *)
Definition object (V : Type) : Type := list (string * V).

(** [Object.keys(o)] *)
Definition keys {V} (o : object V) : list string := o.*1.

(** [o[k]]: [None] stands for [undefined]. *)
Fixpoint getProp {V} (o : object V) (k : string) : option V :=
  match o with
  | [] => None
  | (k', v) :: rest => if decide (k' = k) then Some v else getProp rest k
  end.

Definition digit (c : ascii) : option Z :=
  let n := Z.of_nat (nat_of_ascii c) in
  if decide (48 <= n <= 57) then Some (n - 48) else None.

Fixpoint parseDigits (acc : Z) (s : string) : option Z :=
  match s with
  | EmptyString => Some acc
  | String c rest =>
      match digit c with
      | Some d => parseDigits (10 * acc + d) rest
      | None => None
      end
  end.

(** [Number(s)] on property keys: a string of decimal digits is its value
    (the empty string is 0); the embedding maps every other key to [NaN]. *)
Definition Number (s : string) : number :=
  match parseDigits 0 s with
  | Some z => Num z
  | None => NaN
  end.

(** The comparator [(a, b) => a - b]. *)
Definition compareFn (a b : number) : number := sub a b.

(** [Array.prototype.sort] moves [b] in front of [a] only when the
    comparator's result is positive; a [NaN] result counts as 0. *)
Definition in_order (c : number) : bool :=
  match c with
  | Num z => bool_decide (z <= 0)
  | NaN => true
  end.

Section Sort.
Context {A : Type} (cmp : A -> A -> number).

Fixpoint sort_insert (x : A) (l : list A) : list A :=
  match l with
  | [] => [x]
  | y :: rest =>
      if in_order (cmp x y) then x :: y :: rest
      else y :: sort_insert x rest
  end.

(** [l.sort(cmp)]: a stable sort, here by insertion. *)
Definition sort (l : list A) : list A := foldr sort_insert [] l.
End Sort.

(** Storing a value into a [Uint8Array]: reduced modulo 256; [undefined]
    and [NaN] become 0. *)
Definition toUint8 (v : option number) : Z :=
  match v with
  | Some (Num z) => z `mod` 256
  | Some NaN | None => 0
  end.

(** The numeric keys of the object, in the order the bytes are rebuilt. *)
Definition sortedKeys (decimalArray : object number) : list number :=
  sort compareFn (Number <$> keys decimalArray).

Definition decimalBytesToUint8Array (decimalArray : object number) : list Z :=
  (fun key => toUint8 (getProp decimalArray (number_to_string key)))
    <$> sortedKeys decimalArray.

(** Numeric order on keys. *)
Definition num_le (a b : number) : Prop :=
  match a, b with
  | Num x, Num y => x <= y
  | _, _ => False
  end.

(** The example of the spec, with its properties listed in lexical key
    order. *)
Definition elevenBytes : object number :=
  [("0", Num 1); ("1", Num 2); ("10", Num 11); ("2", Num 3); ("3", Num 4);
   ("4", Num 5); ("5", Num 6); ("6", Num 7); ("7", Num 8); ("8", Num 9);
   ("9", Num 10)].

(** ** Message decoder registry and response decoding *)

Section Decoding.
(** [V] is the type of decoded protobuf messages. *)
Context {V : Type}.

(** A decoder either returns the decoded message or throws. *)
Definition decoder : Type := list Z -> result V.

(** What [decodeProtobufMessage] and [extractAndDecodeMessages] store as
    [decodedValue]: the decoder's value, the placeholder
    [{error, rawBytes}], or the object [{error}]. *)
Inductive decodedValue : Type :=
  | Decoded (v : V)
  | Placeholder (error : string) (rawBytes : list Z)
  | ErrorOnly (error : string).

Definition decodeProtobufMessage
    (typeUrl : string) (messageBytes : list Z)
    (messageRegistry : gmap string decoder) : result decodedValue :=
  match messageRegistry !! typeUrl with
  | None =>
      Ok (Placeholder ("Unknown message type: " +:+ typeUrl) messageBytes)
  | Some decoder =>
      catch
        (rbind (decoder messageBytes) (fun v => Ok (Decoded v)))
        (fun error =>
           Ok (Placeholder ("Failed to decode: " +:+ message error)
                 messageBytes))
  end.

(** One entry of [result.msgResponses]; [value] is [None] when the entry
    carries no byte map. *)
Record MsgResponse : Type := mkMsgResponse {
  typeUrl : string;
  value : option (object number);
}.

Record DecodedMessage : Type := mkDecodedMessage {
  dm_typeUrl : string;
  dm_decodedValue : decodedValue;
}.

(** [Object.keys] throws on [undefined]. *)
Definition bytesOfValue (v : option (object number)) : result (list Z) :=
  match v with
  | Some o => Ok (decimalBytesToUint8Array o)
  | None => Throw (mkError "Cannot convert undefined or null to object")
  end.

(** The body of the loop over [result.msgResponses]. *)
Definition decodeOne (messageRegistry : gmap string decoder)
    (msgResponse : MsgResponse) : result DecodedMessage :=
  catch
    (rbind (bytesOfValue (value msgResponse)) (fun messageBytes =>
     rbind (decodeProtobufMessage (typeUrl msgResponse) messageBytes
              messageRegistry) (fun decodedValue =>
     Ok (mkDecodedMessage (typeUrl msgResponse) decodedValue))))
    (fun error =>
       Ok (mkDecodedMessage (or_default (typeUrl msgResponse) "unknown")
             (ErrorOnly (message error)))).

Fixpoint decodeAll (messageRegistry : gmap string decoder)
    (l : list MsgResponse) : result (list DecodedMessage) :=
  match l with
  | [] => Ok []
  | m :: rest =>
      rbind (decodeOne messageRegistry m) (fun d =>
      rbind (decodeAll messageRegistry rest) (fun ds => Ok (d :: ds)))
  end.

(** [msgResponses] is [None] when the field is missing or no array. *)
Definition extractAndDecodeMessages
    (msgResponses : option (list MsgResponse))
    (messageRegistry : gmap string decoder) : result (list DecodedMessage) :=
  match msgResponses with
  | None => Ok []
  | Some l => decodeAll messageRegistry l
  end.
End Decoding.

Arguments decodedValue : clear implicits.
Arguments MsgResponse : clear implicits.
Arguments DecodedMessage : clear implicits.

(** ** Calls to the outside world *)

(** A computation that may call the outside world runs on a state made of
    the world [W] (the node, the network) and the log of the events [Ev]
    so far, and returns or throws. *)
Section Eff.
Context {W Ev : Type}.

Record st : Type := mkSt { world : W; log : list Ev }.

Definition Eff (A : Type) : Type := st -> st * result A.

Definition ret {A} (a : A) : Eff A := fun s => (s, Ok a).

Definition throw {A} (e : Error) : Eff A := fun s => (s, Throw e).

Definition bind {A B} (m : Eff A) (f : A -> Eff B) : Eff B :=
  fun s =>
    match m s with
    | (s', Ok a) => f a s'
    | (s', Throw e) => (s', Throw e)
    end.

(** [try { m } catch (e) { h e }] *)
Definition try_catch {A} (m : Eff A) (h : Error -> Eff A) : Eff A :=
  fun s =>
    match m s with
    | (s', Ok a) => (s', Ok a)
    | (s', Throw e) => h e s'
    end.

(** [try { m } finally { fin }]: [fin] runs on every exit of [m]; the
    outcome is that of [m] unless [fin] itself throws. *)
Definition try_finally {A} (m : Eff A) (fin : Eff unit) : Eff A :=
  fun s =>
    match m s with
    | (s', r) =>
        match fin s' with
        | (s'', Ok _) => (s'', r)
        | (s'', Throw e) => (s'', Throw e)
        end
    end.

(** Records an event. *)
Definition emit (e : Ev) : Eff unit :=
  fun s => (mkSt (world s) (log s ++ [e]), Ok tt).

(** Runs an operation of the world. *)
Definition extern {A} (f : W -> W * result A) : Eff A :=
  fun s => let '(w', r) := f (world s) in (mkSt w' (log s), r).

(** Lifts code without outside effects. *)
Definition lift {A} (r : result A) : Eff A := fun s => (s, r).
End Eff.

Arguments st : clear implicits.
Arguments Eff : clear implicits.

Notation "'let*' x ':=' m 'in' k" := (bind m (fun x => k))
  (at level 10, x pattern, m at level 100, k at level 200).
Notation "m ';;' k" := (bind m (fun _ => k))
  (at level 100, k at level 200, right associativity).

(** ** Broadcast pipeline *)

Section Broadcast.
Context {V W : Type}.

(** The node's answer to [broadcastTx]. *)
Record TxResult : Type := mkTxResult {
  code : Z;
  rawLog : string;
  transactionHash : jsvalue;
  txhash : jsvalue;
  hash : jsvalue;
  msgResponses : option (list MsgResponse);
}.

Record BroadcastResult : Type := mkBroadcastResult {
  success : bool;
  txHash : jsvalue;
  decodedMessages : option (list (DecodedMessage V));
  responses : TxResult;
}.

(** What the pipeline uses of its surroundings: the environment variable
    and the two client operations; [connect] stands for the dynamic import
    of the client library followed by [StargateClient.connect]. *)
Record Stargate : Type := mkStargate {
  COSMOS_RPC_URL : option string;
  connect : string -> W -> W * result unit;
  broadcastTx : list Z -> W -> W * result TxResult;
}.

Inductive bevent : Type :=
  | EvConnect (rpcUrl : string)
  | EvBroadcastTx (txBytes : list Z).

(** [process.env.COSMOS_RPC_URL || "http://localhost:26657"] *)
Definition rpcUrlOf (env : option string) : string :=
  match env with
  | Some u => or_default u "http://localhost:26657"
  | None => "http://localhost:26657"
  end.

Definition extractTxHash (result : TxResult) : jsvalue :=
  coalesce (transactionHash result)
    (coalesce (txhash result) (coalesce (hash result) (Str ""))).

Definition broadcastSignedTx (node : Stargate)
    (signedTxHex : string)
    (messageRegistry : option (gmap string (@decoder V)))
    : Eff W bevent BroadcastResult :=
  try_catch
    ((if decide (signedTxHex = "")
      then throw (mkError "signedTxHex is required") else ret tt);;
     let txBytes := hexDecode (strip0x signedTxHex) in
     let rpcUrl := rpcUrlOf (COSMOS_RPC_URL node) in
     emit (EvConnect rpcUrl);;
     extern (connect node rpcUrl);;
     emit (EvBroadcastTx txBytes);;
     let* result := extern (broadcastTx node txBytes) in
     (if decide (code result <> 0)
      then throw (mkError ("Broadcast failed (code " +:+ pretty (code result)
                             +:+ "): " +:+ rawLog result))
      else ret tt);;
     let txHash := extractTxHash result in
     let* decodedMessages :=
       match messageRegistry with
       | Some registry =>
           let* ds :=
             lift (extractAndDecodeMessages (msgResponses result) registry)
           in ret (Some ds)
       | None => ret None
       end in
     ret (mkBroadcastResult true txHash decodedMessages result))
    (fun err => throw (mkError (or_default (message err) "Broadcast failed"))).
End Broadcast.

Arguments BroadcastResult : clear implicits.
Arguments Stargate : clear implicits.

(** ** Node connection manager and generic query dispatcher *)

Section Query.
(** Requests, responses and the world the service methods act on. *)
Context {Req Resp W : Type}.

(** A member of the service object: a function, or any other value. *)
Inductive member : Type :=
  | Method (f : Req -> W -> W * result Resp)
  | Field.

(** The service instance: its own enumerable properties, in the order of
    [Object.keys], and the properties it only inherits from its prototype
    chain, which a property read finds and [Object.keys] does not. *)
Record Service : Type := mkService {
  own : object member;
  inherited : object member;
}.

(** [service[k]] *)
Definition readProp (service : Service) (k : string) : option member :=
  match getProp (own service) k with
  | Some m => Some m
  | None => getProp (inherited service) k
  end.

(** [typeof service[k] === 'function'] *)
Definition isFunction (service : Service) (k : string) : bool :=
  match readProp service k with
  | Some (Method _) => true
  | _ => false
  end.

(** The Tendermint client: [connect] may throw, [disconnect] does not. *)
Record Tendermint : Type := mkTendermint {
  tm_connect : string -> W -> W * result unit;
  tm_disconnect : W -> W;
}.

(** [new ServiceCtor(rpc)] *)
Definition ServiceCtor : Type := W -> W * result Service.

Inductive qevent : Type :=
  | QConnect (url : string)
  | QCall (req : Req) (outcome : result Resp)
  | QDisconnect.

Definition close (tm : Tendermint) : Eff W qevent unit :=
  fun s => (mkSt (tm_disconnect tm (world s)) (log s ++ [QDisconnect]), Ok tt).

Definition getQueryService (tm : Tendermint) (ctor : ServiceCtor)
    : Eff W qevent (Service * Eff W qevent unit) :=
  emit (QConnect "http://localhost:26657");;
  extern (tm_connect tm "http://localhost:26657");;
  let* service := extern ctor in
  ret (service, close tm).

(** [fn.call(service, req)], logged with its outcome. *)
Definition call (fn : Req -> W -> W * result Resp) (req : Req)
    : Eff W qevent Resp :=
  fun s =>
    let '(w', r) := fn req (world s) in
    (mkSt w' (log s ++ [QCall req r]), r).

(** [Object.keys(service).filter(k => typeof service[k] === 'function')] *)
Definition available (service : Service) : list string :=
  List.filter (isFunction service) (keys (own service)).

Definition methodNotFound (methodName : string) (service : Service) : Error :=
  mkError ("Method '" +:+ methodName +:+ "' not found. Available: "
           +:+ join ", " (available service)).

(** The loop over the candidates and the [throw] after it; [lastError] is
    [None] while the variable is still [undefined]. *)
Fixpoint tryCandidates (fn : Req -> W -> W * result Resp)
    (lastError : option Error) (reqCandidates : list Req)
    : Eff W qevent Resp :=
  match reqCandidates with
  | [] =>
      throw (match lastError with
             | Some e => e
             | None => mkError "All request candidates failed."
             end)
  | req :: rest =>
      try_catch (call fn req) (fun e => tryCandidates fn (Some e) rest)
  end.

(** The body of the [try] block of [queryAny]. *)
Definition dispatch (service : Service) (methodName : string)
    (reqCandidates : list Req) : Eff W qevent Resp :=
  match readProp service methodName with
  | Some (Method fn) => tryCandidates fn None reqCandidates
  | _ => throw (methodNotFound methodName service)
  end.

Definition queryAny (tm : Tendermint) (ctor : ServiceCtor)
    (methodName : string) (reqCandidates : list Req) : Eff W qevent Resp :=
  let* (service, close) := getQueryService tm ctor in
  try_finally (dispatch service methodName reqCandidates) close.
End Query.

Arguments member : clear implicits.
Arguments Service : clear implicits.
Arguments Tendermint : clear implicits.
Arguments ServiceCtor : clear implicits.
Arguments qevent : clear implicits.

(** ** Notions used to state the properties *)

(** The byte map the node sends for the bytes [bs]: byte number [i] under
    the key [String(i)]. *)
Fixpoint indexedFrom (i : Z) (bs : list Z) : object number :=
  match bs with
  | [] => []
  | b :: rest => (pretty i, Num b) :: indexedFrom (i + 1) rest
  end.

Definition indexed (bs : list Z) : object number := indexedFrom 0 bs.

Definition is_num (n : number) : Prop :=
  match n with Num _ => True | NaN => False end.

(** The error a failure inside the pipeline is re-thrown as. *)
Definition rethrown (e : Error) : Error :=
  mkError (or_default (message e) "Broadcast failed").

(** The error raised for a result with a non-zero code. *)
Definition rejected (result : TxResult) : Error :=
  mkError ("Broadcast failed (code " +:+ pretty (code result) +:+ "): "
           +:+ rawLog result).

(** A node, for the examples: it accepts every connection and every
    transaction, answering with code 0 and the hash "ABC" under
    [transactionHash]. *)
Definition acceptingNode : Stargate unit :=
  mkStargate None
    (fun _ w => (w, Ok tt))
    (fun _ w => (w, Ok (mkTxResult 0 "" (Str "ABC") Undefined Undefined None))).

(** The same node, answering without any of the three hash fields. *)
Definition hashlessNode : Stargate unit :=
  mkStargate None
    (fun _ w => (w, Ok tt))
    (fun _ w => (w, Ok (mkTxResult 0 "" Undefined Null Undefined None))).

(** The state before a call: nothing logged yet. *)
Definition start {Ev : Type} : st unit Ev := mkSt tt [].

(** The first value of [l] that is neither [undefined] nor [null], and [d]
    when there is none. *)
Fixpoint firstPresent (l : list jsvalue) (d : jsvalue) : jsvalue :=
  match l with
  | [] => d
  | v :: rest => if is_nullish v then firstPresent rest d else v
  end.

(** The endpoint [getQueryService] connects to. *)
Definition nodeUrl : string := "http://localhost:26657".

Section QueryNotions.
Context {Req Resp W : Type}.

(** The event of a call that failed. *)
Definition failed (req : Req) (e : Error) : qevent Req Resp :=
  QCall req (Throw e).

(** Every candidate fails: calling [fn] on the candidates one after the
    other, from the world [w], throws each time; the result is the world
    after the last call and the errors in the order they were thrown. *)
Fixpoint allFail (fn : Req -> W -> W * result Resp) (w : W)
    (reqCandidates : list Req) : option (W * list Error) :=
  match reqCandidates with
  | [] => Some (w, [])
  | req :: rest =>
      match fn req w with
      | (w1, Throw e) =>
          match allFail fn w1 rest with
          | Some (w', errs) => Some (w', e :: errs)
          | None => None
          end
      | (_, Ok _) => None
      end
  end.

Definition isDisconnect (ev : qevent Req Resp) : bool :=
  match ev with QDisconnect => true | _ => false end.

Definition isCall (ev : qevent Req Resp) : bool :=
  match ev with QCall _ _ => true | _ => false end.

(** How many times the connection was released. *)
Definition closes (l : list (qevent Req Resp)) : nat :=
  length (List.filter isDisconnect l).

(** The names under which a property read of the service finds a
    function, own and inherited alike. *)
Definition callableMembers (service : Service Req Resp W) : list string :=
  List.filter (isFunction service)
    (keys (own service) ++ keys (inherited service)).
End QueryNotions.

(** A service for the examples, shaped like a generated query client:
    requests are numbers and request 1 is the only one the node rejects;
    [GetRegistry] is bound on the instance, next to the data field [rpc],
    and also lives on the prototype, with the inherited [toString]. *)
Definition exampleMethod (req : nat) (w : unit) : unit * result string :=
  if decide (req = 1%nat)
  then (w, Throw (mkError "invalid request"))
  else (w, Ok ("registry " +:+ pretty req)).

(** A method that rejects every request, naming it. *)
Definition rejectingMethod (req : nat) (w : unit) : unit * result string :=
  (w, Throw (mkError ("bad request " +:+ pretty req))).

Definition exampleService : Service nat string unit :=
  mkService
    [("rpc", Field); ("GetRegistry", Method exampleMethod);
     ("Reject", Method rejectingMethod)]
    [("GetRegistry", Method exampleMethod);
     ("toString", Method (fun _ w => (w, Ok "[object Object]")))].

Definition exampleTm : Tendermint unit :=
  mkTendermint (fun _ w => (w, Ok tt)) (fun w => w).

Definition exampleCtor : ServiceCtor nat string unit :=
  fun w => (w, Ok exampleService).

(** ** The earlier broadcast pipeline, without response decoding *)

Module Legacy.
Section Broadcast.
Context {W : Type}.

Record BroadcastResult : Type := mkBroadcastResult {
  success : bool;
  txHash : jsvalue;
  responses : TxResult;
}.

Definition broadcastSignedTx (node : Stargate W) (signedTxHex : string)
    : Eff W bevent BroadcastResult :=
  try_catch
    ((if decide (signedTxHex = "")
      then throw (mkError "signedTxHex is required") else ret tt);;
     let txBytes := hexDecode (strip0x signedTxHex) in
     let rpcUrl := rpcUrlOf (COSMOS_RPC_URL node) in
     emit (EvConnect rpcUrl);;
     extern (connect node rpcUrl);;
     emit (EvBroadcastTx txBytes);;
     let* result := extern (broadcastTx node txBytes) in
     (if decide (code result <> 0)
      then throw (mkError ("Broadcast failed (code " +:+ pretty (code result)
                             +:+ "): " +:+ rawLog result))
      else ret tt);;
     let txHash :=
       coalesce (transactionHash result)
         (coalesce (txhash result) (coalesce (hash result) (Str ""))) in
     ret (mkBroadcastResult true txHash result))
    (fun err => throw (mkError (or_default (message err) "Broadcast failed"))).
End Broadcast.
Arguments BroadcastResult : clear implicits.
End Legacy.

(** ** HTTP boundary *)

(** What a route handler sends: the status code (200 unless set) and the
    JSON body, either [{status: "error", message}] or the route's own
    payload, kept here as the value that is serialised. *)
Inductive payload (A : Type) : Type :=
  | ErrorJson (message : string)
  | Json (a : A).
Arguments ErrorJson {A} message.
Arguments Json {A} a.

Record HttpResponse (A : Type) : Type := mkHttpResponse {
  status : Z;
  body : payload A;
}.
Arguments mkHttpResponse {A} status body.
Arguments status {A} _.
Arguments body {A} _.

Section Routes.
Context {V W : Type}.

(** [MsgRegisterLandRegistryResponse.decode], generated code that the
    module imports. *)
Context (decodeRegisterLandRegistryResponse : @decoder V).

(** The decoder registry of the server. *)
Definition messageRegistry : gmap string (@decoder V) :=
  {[ "/elandnode.reg.v1.MsgRegisterLandRegistryResponse" :=
       decodeRegisterLandRegistryResponse ]}.

(** [POST /api/upload/create-presigned]; [signedTxHex] is the field of the
    request body, [None] when the body has no such field; the embedding
    covers a field that holds a string, as [broadcastSignedTx] declares. *)
Definition createPresigned (node : Stargate W) (signedTxHex : option string)
    : Eff W bevent (HttpResponse (BroadcastResult V)) :=
  match signedTxHex with
  | None => ret (mkHttpResponse 400 (ErrorJson "signedTxHex required"))
  | Some hex =>
      if decide (hex = "")
      then ret (mkHttpResponse 400 (ErrorJson "signedTxHex required"))
      else
        try_catch
          (let* result := broadcastSignedTx node hex (Some messageRegistry) in
           ret (mkHttpResponse 200 (Json result)))
          (fun error => ret (mkHttpResponse 500 (ErrorJson (message error))))
  end.
End Routes.

Section RegistryRoute.
Context {Req Resp W : Type}.

(** [GET /get/create-presigned/GetRegistry]; [request] is the fixed
    request of the route and [ctor] the imported query client. *)
Definition getRegistry (tm : Tendermint W) (ctor : ServiceCtor Req Resp W)
    (request : Req) : Eff W (qevent Req Resp) (HttpResponse Resp) :=
  try_catch
    (let* result := queryAny tm ctor "GetRegistry" [request] in
     ret (mkHttpResponse 200 (Json result)))
    (fun error => ret (mkHttpResponse 500 (ErrorJson (message error)))).
End RegistryRoute.

(** ** More notions used to state the properties *)

(** A byte, as a [Uint8Array] holds it. *)
Definition is_byte (b : Z) : Prop := 0 <= b < 256.

(** Forgets the decoded messages of a result. *)
Definition forgetDecoded {V} (r : BroadcastResult V) : Legacy.BroadcastResult :=
  Legacy.mkBroadcastResult (success r) (txHash r) (responses r).

(** The requests of the calls in a log, in the order of the calls. *)
Definition calledWith {Req Resp} (l : list (qevent Req Resp)) : list Req :=
  omap (fun ev => match ev with QCall req _ => Some req | _ => None end) l.

(** A node, for the examples, that refuses every transaction with code 5. *)
Definition refusingNode : Stargate unit :=
  mkStargate (Some "http://node:26657")
    (fun _ w => (w, Ok tt))
    (fun _ w => (w, Ok (mkTxResult 5 "insufficient funds" Undefined Undefined
                          Undefined None))).

(** A node, for the examples, that cannot be reached. *)
Definition unreachableNode : Stargate unit :=
  mkStargate (Some "")
    (fun _ w => (w, Throw (mkError "connect ECONNREFUSED")))
    (fun _ w => (w, Throw (mkError "unused"))).

(** A Tendermint client, for the examples, that cannot connect. *)
Definition unreachableTm : Tendermint unit :=
  mkTendermint (fun _ w => (w, Throw (mkError "connect ECONNREFUSED")))
    (fun w => w).

(** A registry and a batch of message responses, for the examples: the
    first message has a registered type, the second an unknown one, the
    third carries no byte map. *)
Definition exampleRegistry : gmap string (@decoder string) :=
  {[ "/known.Response" :=
       fun bytes =>
         if decide (bytes = []) then Throw (mkError "premature EOF")
         else Ok "decoded response" ]}.

Definition exampleBatch : list MsgResponse :=
  [mkMsgResponse "/known.Response" (Some [("0", Num 10); ("1", Num 7)]);
   mkMsgResponse "/other.Response" (Some [("0", Num 1)]);
   mkMsgResponse "" None].

(** A node, for the examples, whose submission fails with an error that
    has no message. *)
Definition droppingNode : Stargate unit :=
  mkStargate None
    (fun _ w => (w, Ok tt))
    (fun _ w => (w, Throw (mkError ""))).

(** A node, for the examples, that accepts the transaction and reports the
    message responses of [exampleBatch]. *)
Definition reportingNode : Stargate unit :=
  mkStargate None
    (fun _ w => (w, Ok tt))
    (fun _ w => (w, Ok (mkTxResult 0 "" Undefined (Str "F00D") Undefined
                          (Some exampleBatch)))).

(** A query client, for the examples, whose constructor throws. *)
Definition throwingCtor : ServiceCtor nat string unit :=
  fun w => (w, Throw (mkError "rpc is not defined")).

(** ** The wire codec and the pipeline on UTF-16 strings *)

Module Utf16.

(** A JavaScript string, as the sequence of its UTF-16 code units. *)
Definition jsstring : Type := list Z.

(** The code units of a string of 8-bit characters. *)
Fixpoint ofString (s : string) : jsstring :=
  match s with
  | EmptyString => []
  | String c rest => Z.of_nat (nat_of_ascii c) :: ofString rest
  end.

(** The hex decoder of [Buffer] reads a code unit through its low 8 bits
    and looks that byte up in its table of digits. *)
Definition unhex (c : Z) : option Z :=
  let n := Z.land c 255 in
  if decide (48 <= n <= 57) then Some (n - 48)
  else if decide (97 <= n <= 102) then Some (n - 87)
  else if decide (65 <= n <= 70) then Some (n - 55)
  else None.

(** [Buffer.from(s, "hex")] *)
Fixpoint hexDecode (s : jsstring) : list Z :=
  match s with
  | a :: b :: rest =>
      match unhex a, unhex b with
      | Some hi, Some lo => Z.lor (Z.shiftl hi 4) lo :: hexDecode rest
      | _, _ => []
      end
  | _ => []
  end.

(** [s.replace(/^0x/, "")]: the regular expression compares whole code
    units, "0" is 48 and "x" is 120. *)
Definition strip0x (s : jsstring) : jsstring :=
  match s with
  | a :: b :: rest => if decide (a = 48 /\ b = 120) then rest else s
  | _ => s
  end.

Section Broadcast.
Context {V W : Type}.

Definition broadcastSignedTx (node : Stargate W)
    (signedTxHex : jsstring)
    (messageRegistry : option (gmap string (@decoder V)))
    : Eff W bevent (BroadcastResult V) :=
  try_catch
    ((if decide (signedTxHex = [])
      then throw (mkError "signedTxHex is required") else ret tt);;
     let txBytes := hexDecode (strip0x signedTxHex) in
     let rpcUrl := rpcUrlOf (COSMOS_RPC_URL node) in
     emit (EvConnect rpcUrl);;
     extern (connect node rpcUrl);;
     emit (EvBroadcastTx txBytes);;
     let* result := extern (broadcastTx node txBytes) in
     (if decide (code result <> 0)
      then throw (mkError ("Broadcast failed (code " +:+ pretty (code result)
                             +:+ "): " +:+ rawLog result))
      else ret tt);;
     let txHash := extractTxHash result in
     let* decodedMessages :=
       match messageRegistry with
       | Some registry =>
           let* ds :=
             lift (extractAndDecodeMessages (msgResponses result) registry)
           in ret (Some ds)
       | None => ret None
       end in
     ret (mkBroadcastResult true txHash decodedMessages result))
    (fun err => throw (mkError (or_default (message err) "Broadcast failed"))).
End Broadcast.

(** Every code unit reads as a hexadecimal digit. *)
Definition all_hex (s : jsstring) : bool :=
  forallb (fun c => bool_decide (is_Some (unhex c))) s.

(** Digits only, an even number of them. *)
Definition well_formed_hex (s : jsstring) : bool :=
  all_hex s && Nat.even (length s).

(** The longest prefix of [s] made of whole pairs of code units that read
    as hexadecimal digits. *)
Fixpoint hexPrefix (s : jsstring) : jsstring :=
  match s with
  | a :: b :: rest =>
      match unhex a, unhex b with
      | Some _, Some _ => a :: b :: hexPrefix rest
      | _, _ => []
      end
  | _ => []
  end.

(** [s] does not start with a pair of code units that read as digits. *)
Definition no_leading_pair (s : jsstring) : bool :=
  match s with
  | a :: b :: _ =>
      negb (bool_decide (is_Some (unhex a)) && bool_decide (is_Some (unhex b)))
  | _ => true
  end.

(** The code unit of the hexadecimal digit of value [d], in upper or in
    lower case. *)
Definition hexDigit (upper : bool) (d : Z) : Z :=
  if decide (d < 10) then 48 + d
  else if upper then 55 + d else 87 + d.

(** The hexadecimal spelling of a byte sequence, two digits per byte. *)
Fixpoint hexSpelling (upper : bool) (bs : list Z) : jsstring :=
  match bs with
  | [] => []
  | b :: rest =>
      hexDigit upper (b `div` 16) :: hexDigit upper (b `mod` 16)
        :: hexSpelling upper rest
  end.

End Utf16.

(** A service, for the examples, whose method [Get] fails on every request
    but 3. *)
Definition pickyService : Service nat string unit :=
  mkService
    [("Get", Method (fun req w =>
        if decide (req = 3%nat) then (w, Ok "third")
        else (w, Throw (mkError ("bad " +:+ pretty req)))))]
    [].

Definition pickyCtor : ServiceCtor nat string unit :=
  fun w => (w, Ok pickyService).

(** * Properties *)

(** ** Decimal keys and their numeric order *)

Lemma string_app_cons a s1 s2 : String a s1 +:+ s2 = String a (s1 +:+ s2).
Proof. reflexivity. Qed.

Lemma string_app_assoc s1 s2 s3 : (s1 +:+ s2) +:+ s3 = s1 +:+ (s2 +:+ s3).
Proof.
  induction s1 as [|a s1 IH]; [done|].
  by rewrite !string_app_cons, IH.
Qed.

Lemma parseDigits_app acc s1 s2 :
  parseDigits acc (s1 +:+ s2) = parseDigits acc s1 ≫= λ a, parseDigits a s2.
Proof.
  revert acc; induction s1 as [|c s1 IH]; intros acc; [done|].
  rewrite string_app_cons. simpl.
  destruct (digit c); simpl; [apply IH|done].
Qed.

Lemma pretty_N_go_app x s : pretty_N_go x s = pretty_N_go x "" +:+ s.
Proof.
  revert s; induction (N.lt_wf_0 x) as [x _ IH]; intros s.
  destruct (decide (x = 0%N)) as [->|Hx]; [by rewrite !pretty_N_go_0|].
  rewrite (pretty_N_go_step x s), (pretty_N_go_step x "") by lia.
  assert (x `div` 10 < x)%N as Hlt by (apply N.div_lt; lia).
  rewrite (IH _ Hlt (String _ s)), (IH _ Hlt (String _ "")).
  by rewrite string_app_assoc.
Qed.

Lemma digit_pretty_N_char d :
  (d < 10)%N -> digit (pretty_N_char d) = Some (Z.of_N d).
Proof.
  intros Hd.
  assert (d = 0 ∨ d = 1 ∨ d = 2 ∨ d = 3 ∨ d = 4 ∨ d = 5 ∨ d = 6 ∨ d = 7
          ∨ d = 8 ∨ d = 9)%N as Hcases by lia.
  repeat (destruct Hcases as [->|Hcases]; [reflexivity|]).
  by subst.
Qed.

Lemma parseDigits_pretty_N_go x :
  parseDigits 0 (pretty_N_go x "") = Some (Z.of_N x).
Proof.
  induction (N.lt_wf_0 x) as [x _ IH].
  destruct (decide (x = 0%N)) as [->|Hx]; [done|].
  rewrite pretty_N_go_step, pretty_N_go_app, parseDigits_app by lia.
  rewrite IH by (apply N.div_lt; lia). simpl.
  rewrite digit_pretty_N_char by (apply N.mod_lt; lia).
  f_equal. rewrite (N.div_mod x 10) at 3 by lia. lia.
Qed.

(** [Number(String(i)) = i] for an index [i]. *)
Lemma Number_pretty (i : Z) : 0 <= i -> Number (pretty i) = Num i.
Proof.
  intros Hi. unfold Number.
  destruct i as [|p|p]; [done| |lia].
  change (pretty (Z.pos p)) with (pretty (N.pos p)).
  unfold pretty, pretty_N. rewrite decide_False by done.
  by rewrite parseDigits_pretty_N_go.
Qed.

Lemma sort_insert_perm {A} (cmp : A -> A -> number) x l :
  sort_insert cmp x l ≡ₚ x :: l.
Proof.
  induction l as [|y l IH]; simpl; [done|].
  destruct (in_order (cmp x y)); [done|].
  rewrite IH. apply Permutation_swap.
Qed.

Lemma sort_cons {A} (cmp : A -> A -> number) x l :
  sort cmp (x :: l) = sort_insert cmp x (sort cmp l).
Proof. reflexivity. Qed.

Lemma sort_perm {A} (cmp : A -> A -> number) l : sort cmp l ≡ₚ l.
Proof.
  induction l as [|x l IH]; [done|].
  by rewrite sort_cons, sort_insert_perm, IH.
Qed.

Lemma num_le_trans a b c : num_le a b -> num_le b c -> num_le a c.
Proof. destruct a, b, c; simpl; try done. lia. Qed.

Lemma sort_insert_sorted x l :
  is_num x -> Forall is_num l ->
  StronglySorted num_le l ->
  StronglySorted num_le (sort_insert compareFn x l).
Proof.
  intros Hx Hl Hs. induction Hs as [|y l Hs IH Hy]; simpl.
  { repeat constructor. }
  apply Forall_cons in Hl as [Hny Hl].
  destruct x as [|a]; [done|]. destruct y as [|b]; [done|]. simpl.
  case_bool_decide as Hab.
  - constructor; [by constructor|].
    constructor; [simpl; lia|].
    eapply Forall_impl; [exact Hy|].
    intros c Hc. eapply num_le_trans; [|exact Hc]. simpl; lia.
  - constructor; [by apply IH|].
    rewrite sort_insert_perm. constructor; [simpl; lia|done].
Qed.

Lemma sort_sorted l :
  Forall is_num l -> StronglySorted num_le (sort compareFn l).
Proof.
  induction 1 as [|x l Hx Hl IH]; [constructor|].
  rewrite sort_cons. apply sort_insert_sorted; [done| |done].
  by rewrite sort_perm.
Qed.

Lemma num_le_antisym a b : num_le a b -> num_le b a -> a = b.
Proof. destruct a, b; simpl; try done. intros; f_equal; lia. Qed.

#[local] Instance num_le_AntiSymm : AntiSymm (=) num_le.
Proof. intros a b. apply num_le_antisym. Qed.

Lemma getProp_elem_of {V} (o : object V) k v :
  getProp o k = Some v -> (k, v) ∈ o.
Proof.
  induction o as [|[k' v'] o IH]; simpl; [done|].
  case_decide as Hk; [|right; auto].
  intros [= ->]. subst. left.
Qed.

Lemma elem_of_getProp {V} (o : object V) k v :
  NoDup (keys o) -> (k, v) ∈ o -> getProp o k = Some v.
Proof.
  unfold keys. induction o as [|[k' v'] o IH]; simpl.
  { by intros _ ?%elem_of_nil. }
  intros [Hk' Hnd]%NoDup_cons [[= -> ->]|Hin]%elem_of_cons.
  { by rewrite decide_True. }
  rewrite decide_False; [by apply IH|].
  intros ->. apply Hk'. apply list_elem_of_fmap. by exists (k, v).
Qed.

(** With distinct keys, a property read does not depend on the order in
    which the properties are listed. *)
Lemma getProp_perm {V} (o o' : object V) k :
  NoDup (keys o') -> o ≡ₚ o' -> getProp o k = getProp o' k.
Proof.
  intros Hnd Hp.
  assert (NoDup (keys o)) as Hnd'.
  { unfold keys in *. by rewrite Hp. }
  destruct (getProp o' k) as [v|] eqn:Ho'.
  - apply elem_of_getProp; [done|]. rewrite Hp. by apply getProp_elem_of.
  - destruct (getProp o k) as [v|] eqn:Ho; [|done].
    apply getProp_elem_of in Ho. rewrite Hp in Ho.
    apply elem_of_getProp in Ho; [congruence|done].
Qed.

Lemma keys_indexedFrom i bs :
  0 <= i ->
  Forall (fun k => exists j, k = pretty j /\ i <= j) (keys (indexedFrom i bs)).
Proof.
  revert i; induction bs as [|b bs IH]; intros i Hi; simpl; [constructor|].
  constructor; [exists i; split; [done|lia]|].
  eapply Forall_impl; [apply (IH (i + 1)); lia|].
  intros k (j & -> & Hj). exists j. split; [done|lia].
Qed.

Lemma NoDup_keys_indexedFrom i bs : 0 <= i -> NoDup (keys (indexedFrom i bs)).
Proof.
  revert i; induction bs as [|b bs IH]; intros i Hi; simpl; [constructor|].
  constructor; [|apply IH; lia].
  intros Hin.
  pose proof (keys_indexedFrom (i + 1) bs ltac:(lia)) as Hall.
  rewrite Forall_forall in Hall.
  destruct (Hall _ Hin) as (j & Heq & Hj).
  apply (inj pretty) in Heq. lia.
Qed.

Lemma sorted_keys_indexedFrom i bs :
  0 <= i -> StronglySorted num_le (Number <$> keys (indexedFrom i bs)).
Proof.
  revert i; induction bs as [|b bs IH]; intros i Hi; simpl; [constructor|].
  constructor; [apply IH; lia|].
  rewrite Number_pretty by done.
  apply Forall_fmap.
  eapply Forall_impl; [apply (keys_indexedFrom (i + 1)); lia|].
  intros k (j & -> & Hj). simpl. rewrite Number_pretty by lia. simpl. lia.
Qed.

Lemma rebuild_indexedFrom i bs :
  0 <= i -> Forall (fun b => 0 <= b < 256) bs ->
  (fun key => toUint8 (getProp (indexedFrom i bs) (number_to_string key)))
    <$> (Number <$> keys (indexedFrom i bs)) = bs.
Proof.
  intros Hi Hbs. revert i Hi.
  induction Hbs as [|b bs Hb Hbs IH]; intros i Hi; simpl; [done|].
  rewrite Number_pretty by done. simpl.
  rewrite decide_True by done. simpl.
  f_equal; [by apply Z.mod_small|].
  rewrite <-(IH (i + 1)) at 2 by lia.
  rewrite <-!list_fmap_compose.
  apply Forall_fmap_ext_1.
  eapply Forall_impl; [apply (keys_indexedFrom (i + 1)); lia|].
  intros k (j & -> & Hj). simpl.
  rewrite Number_pretty by lia. simpl.
  rewrite decide_False; [done|].
  intros Heq%(inj pretty). lia.
Qed.

(** C7. [decimalBytesToUint8Array] rebuilds the bytes in the numeric order
    of the keys, not in their lexical order: for every byte sequence [bs]
    and every object [o] that holds byte number [i] under the decimal key
    [String(i)], with its properties listed in any order, the keys are
    visited in ascending numeric order (so "10" comes after "9") and the
    result is [bs] itself. *)
Theorem decimalBytesToUint8Array_numeric_order
    (bs : list Z) (o : object number) :
  Forall (fun b => 0 <= b < 256) bs ->
  o ≡ₚ indexed bs ->
  StronglySorted num_le (sortedKeys o) /\
  sortedKeys o ≡ₚ Number <$> keys o /\
  decimalBytesToUint8Array o = bs.
Proof.
  intros Hbs Hp.
  assert (Number <$> keys o ≡ₚ Number <$> keys (indexed bs)) as Hk.
  { unfold keys. by rewrite Hp. }
  assert (StronglySorted num_le (sortedKeys o)) as Hsorted.
  { apply sort_sorted. rewrite Hk.
    apply Forall_fmap.
    eapply Forall_impl; [apply (keys_indexedFrom 0); lia|].
    intros k (j & -> & Hj). simpl. by rewrite Number_pretty. }
  assert (sortedKeys o ≡ₚ Number <$> keys o) as Hperm by apply sort_perm.
  split; [done|]. split; [done|].
  assert (sortedKeys o = Number <$> keys (indexed bs)) as Heq.
  { apply (StronglySorted_unique num_le); [done| |by rewrite Hperm].
    by apply sorted_keys_indexedFrom. }
  unfold decimalBytesToUint8Array. rewrite Heq.
  rewrite <-(rebuild_indexedFrom 0 bs) at 2 by done.
  apply list_fmap_ext. intros _ key _. simpl. f_equal.
  apply getProp_perm; [by apply NoDup_keys_indexedFrom|done].
Qed.

(** The example of the spec: keys "0" to "10", listed in lexical order. *)
Lemma decimalBytesToUint8Array_eleven :
  length (decimalBytesToUint8Array elevenBytes) = 11%nat /\
  decimalBytesToUint8Array elevenBytes !! 10%nat = Some 11 /\
  StronglySorted num_le (sortedKeys elevenBytes).
Proof.
  assert (Forall (fun b => 0 <= b < 256) [1; 2; 3; 4; 5; 6; 7; 8; 9; 10; 11])
    as Hbs by (repeat constructor; lia).
  assert (elevenBytes ≡ₚ indexed [1; 2; 3; 4; 5; 6; 7; 8; 9; 10; 11]) as Hp.
  { do 2 apply Permutation_skip. apply Permutation_cons_append. }
  destruct (decimalBytesToUint8Array_numeric_order _ _ Hbs Hp)
    as (Hs & _ & ->).
  split; [reflexivity|]. split; [reflexivity|exact Hs].
Defined.

(** ** Message decoding *)

(** C2. [decodeProtobufMessage] never throws: for every type URL, byte
    sequence and registry it returns a value; that value is the placeholder
    [{error: "Unknown message type: <typeUrl>", rawBytes}] when the type URL
    is not registered, the decoder's value when the decoder returns, and a
    placeholder [{error, rawBytes}] whose [error] ends with the decoder's
    error message when the decoder throws. *)
Theorem decodeProtobufMessage_total {V : Type}
    (typeUrl : string) (messageBytes : list Z)
    (messageRegistry : gmap string (@decoder V)) :
  decodeProtobufMessage typeUrl messageBytes messageRegistry =
  Ok (match messageRegistry !! typeUrl with
      | None =>
          Placeholder ("Unknown message type: " +:+ typeUrl) messageBytes
      | Some decode =>
          match decode messageBytes with
          | Ok v => Decoded v
          | Throw e =>
              Placeholder ("Failed to decode: " +:+ message e) messageBytes
          end
      end).
Proof.
  unfold decodeProtobufMessage.
  destruct (messageRegistry !! typeUrl) as [decode|]; [|reflexivity].
  destruct (decode messageBytes); reflexivity.
Qed.

Section DecodingFacts.
Context {V : Type}.
Implicit Types registry : gmap string (@decoder V).

Lemma decodeOne_ok registry m : is_ok (decodeOne registry m) = true.
Proof.
  unfold decodeOne. destruct (bytesOfValue (value m)); simpl; [|done].
  unfold decodeProtobufMessage.
  destruct (registry !! typeUrl m) as [decode|]; [|done]. simpl.
  by destruct (decode _).
Qed.

Lemma decodeAll_ok registry l : is_ok (decodeAll registry l) = true.
Proof.
  induction l as [|m l IH]; simpl; [done|].
  pose proof (decodeOne_ok registry m) as Hm.
  destruct (decodeOne registry m); [|done]. simpl.
  by destruct (decodeAll registry l).
Qed.

(** Decoding the message responses of a result never throws. *)
Lemma extractAndDecodeMessages_ok msgs registry :
  is_ok (extractAndDecodeMessages msgs registry) = true.
Proof. destruct msgs; simpl; [apply decodeAll_ok|done]. Qed.
End DecodingFacts.

(** ** Broadcast pipeline *)

Section BroadcastFacts.
Context {V W : Type}.
Implicit Types (node : Stargate W) (s : st W bevent)
  (messageRegistry : option (gmap string (@decoder V))).

(** The pipeline, step by step. *)
Lemma broadcastSignedTx_run node signedTxHex messageRegistry s :
  broadcastSignedTx (V := V) node signedTxHex messageRegistry s =
  if decide (signedTxHex = "")
  then (s, Throw (rethrown (mkError "signedTxHex is required")))
  else
    let txBytes := hexDecode (strip0x signedTxHex) in
    let rpcUrl := rpcUrlOf (COSMOS_RPC_URL node) in
    match connect node rpcUrl (world s) with
    | (w1, Throw e) =>
        (mkSt w1 (log s ++ [EvConnect rpcUrl]), Throw (rethrown e))
    | (w1, Ok _) =>
        let l2 := (log s ++ [EvConnect rpcUrl]) ++ [EvBroadcastTx txBytes] in
        match broadcastTx node txBytes w1 with
        | (w2, Throw e) => (mkSt w2 l2, Throw (rethrown e))
        | (w2, Ok result) =>
            if decide (code result <> 0)
            then (mkSt w2 l2, Throw (rethrown (rejected result)))
            else
              match messageRegistry with
              | None =>
                  (mkSt w2 l2,
                   Ok (mkBroadcastResult true (extractTxHash result)
                         None result))
              | Some registry =>
                  match extractAndDecodeMessages (msgResponses result)
                          registry with
                  | Ok ds =>
                      (mkSt w2 l2,
                       Ok (mkBroadcastResult true (extractTxHash result)
                             (Some ds) result))
                  | Throw e => (mkSt w2 l2, Throw (rethrown e))
                  end
              end
        end
    end.
Proof.
  unfold broadcastSignedTx, try_catch, bind, emit, extern, throw, ret, lift.
  destruct (decide (signedTxHex = "")); [done|]. simpl.
  destruct (connect node _ (world s)) as [w1 [[]|e]]; [|done]. simpl.
  destruct (broadcastTx node _ w1) as [w2 [result|e]]; [|done].
  destruct (decide (code result <> 0)); [done|].
  destruct messageRegistry as [registry|]; [|done].
  by destruct (extractAndDecodeMessages _ registry).
Qed.
End BroadcastFacts.

(** ** Hexadecimal decoding *)

(** Induction on strings, two characters at a time. *)
Lemma string_pair_ind (P : string -> Prop) :
  P "" ->
  (forall a, P (String a "")) ->
  (forall a b s, P s -> P (String a (String b s))) ->
  forall s, P s.
Proof.
  intros H0 H1 H2 s.
  cut (P s /\ forall a, P (String a s)); [tauto|].
  induction s as [|b s [IHs IHa]]; [by split|].
  split; [apply IHa|]. intros a. by apply H2.
Qed.

(** ** Broadcast pipeline *)

Section BroadcastLog.
Context {V W : Type}.

(** Once the connection is open, the decoded bytes are submitted. *)
Lemma broadcastSignedTx_log (node : Stargate W) signedTxHex
    (messageRegistry : option (gmap string (@decoder V))) s w1 :
  signedTxHex <> "" ->
  connect node (rpcUrlOf (COSMOS_RPC_URL node)) (world s) = (w1, Ok tt) ->
  log (broadcastSignedTx node signedTxHex messageRegistry s).1 =
  log s ++ [EvConnect (rpcUrlOf (COSMOS_RPC_URL node));
            EvBroadcastTx (hexDecode (strip0x signedTxHex))].
Proof.
  intros Hne Hc. rewrite broadcastSignedTx_run.
  rewrite decide_False by done. simpl. rewrite Hc.
  rewrite <-(assoc_L (++)). simpl.
  destruct (broadcastTx node _ w1) as [w2 [result|e]]; [|done].
  destruct (decide (code result <> 0)); [done|].
  destruct messageRegistry as [registry|]; [|done].
  by destruct (extractAndDecodeMessages _ registry).
Qed.
End BroadcastLog.

(** C1 fails as stated: the odd-length input "abc" and the input "12zz34",
    which holds non-hexadecimal characters, raise no error; their decodable
    prefixes are submitted and the call succeeds. *)
Lemma broadcastSignedTx_malformed_hex_submitted :
  well_formed_hex (strip0x "abc") = false /\
  well_formed_hex (strip0x "12zz34") = false /\
  (exists r, broadcastSignedTx (V := unit) acceptingNode "abc" None start =
     (mkSt tt [EvConnect "http://localhost:26657"; EvBroadcastTx [171]], Ok r)) /\
  (exists r, broadcastSignedTx (V := unit) acceptingNode "12zz34" None start =
     (mkSt tt [EvConnect "http://localhost:26657"; EvBroadcastTx [18]], Ok r)).
Proof. repeat split; try reflexivity; eexists; reflexivity. Qed.

(** C10. Only a lower-case "0x" is stripped: for every input that begins
    with "0X" the string reaches hex decoding unchanged, decoding stops at
    the "X" without an error and yields no byte at all, so the empty byte
    sequence is submitted, which differs from the bytes the rest of the
    input stands for whenever those are not empty. *)
Theorem broadcastSignedTx_uppercase_prefix {V W : Type}
    (node : Stargate W) (rest : string)
    (messageRegistry : option (gmap string (@decoder V)))
    (s : st W bevent) (w1 : W) :
  connect node (rpcUrlOf (COSMOS_RPC_URL node)) (world s) = (w1, Ok tt) ->
  let signedTxHex := String "0" (String "X" rest) in
  strip0x signedTxHex = signedTxHex /\
  hexDecode (strip0x signedTxHex) = [] /\
  log (broadcastSignedTx node signedTxHex messageRegistry s).1 =
    log s ++ [EvConnect (rpcUrlOf (COSMOS_RPC_URL node)); EvBroadcastTx []] /\
  (hexDecode rest <> [] -> hexDecode (strip0x signedTxHex) <> hexDecode rest).
Proof.
  intros Hc signedTxHex.
  assert (hexDecode (strip0x signedTxHex) = []) as Hd by reflexivity.
  split; [reflexivity|]. split; [exact Hd|]. split.
  - rewrite <-Hd. by eapply broadcastSignedTx_log.
  - intros Hrest. rewrite Hd. congruence.
Qed.

Lemma broadcastSignedTx_uppercase_prefix_witness :
  log (broadcastSignedTx (V := unit) acceptingNode "0Xabcd" None start).1 =
    [EvConnect "http://localhost:26657"; EvBroadcastTx []] /\
  hexDecode "abcd" = [171; 205].
Proof.
  split; [|reflexivity].
  exact (proj1 (proj2 (proj2
    (broadcastSignedTx_uppercase_prefix (V := unit) acceptingNode "abcd" None
       start tt eq_refl)))).
Defined.

Lemma extractTxHash_firstPresent (result : TxResult) :
  extractTxHash result =
  firstPresent [transactionHash result; txhash result; hash result] (Str "").
Proof.
  unfold extractTxHash. simpl.
  by destruct (transactionHash result), (txhash result), (hash result).
Qed.

(** C8. When the node accepts the transaction (code 0), the call succeeds
    and [txHash] is the first of [transactionHash], [txhash], [hash], in
    this order, that is neither [undefined] nor [null]; when all three are
    missing the call succeeds all the same and [txHash] is the empty
    string. *)
Theorem broadcastSignedTx_txHash {V W : Type}
    (node : Stargate W) (signedTxHex : string)
    (messageRegistry : option (gmap string (@decoder V)))
    (s : st W bevent) (w1 w2 : W) (result : TxResult) :
  signedTxHex <> "" ->
  connect node (rpcUrlOf (COSMOS_RPC_URL node)) (world s) = (w1, Ok tt) ->
  broadcastTx node (hexDecode (strip0x signedTxHex)) w1 = (w2, Ok result) ->
  code result = 0 ->
  exists r,
    (broadcastSignedTx node signedTxHex messageRegistry s).2 = Ok r /\
    txHash r =
      firstPresent [transactionHash result; txhash result; hash result]
        (Str "") /\
    (is_nullish (transactionHash result) = true ->
     is_nullish (txhash result) = true ->
     is_nullish (hash result) = true ->
     txHash r = Str "").
Proof.
  intros Hne Hc Hb Hcode.
  rewrite broadcastSignedTx_run, decide_False by done. simpl.
  rewrite Hc, Hb, decide_False by (intros ?; done).
  assert (forall ds,
    exists r : BroadcastResult V,
      Ok (mkBroadcastResult true (extractTxHash result) ds result) = Ok r /\
      txHash r =
        firstPresent [transactionHash result; txhash result; hash result]
          (Str "") /\
      (is_nullish (transactionHash result) = true ->
       is_nullish (txhash result) = true ->
       is_nullish (hash result) = true ->
       txHash r = Str "")) as Hres.
  { intros ds. eexists; split; [reflexivity|]. simpl.
    rewrite extractTxHash_firstPresent. split; [done|].
    simpl. by intros -> -> ->. }
  destruct messageRegistry as [registry|]; [|apply Hres].
  pose proof (extractAndDecodeMessages_ok (msgResponses result) registry) as Hok.
  destruct (extractAndDecodeMessages _ registry); [apply Hres|done].
Qed.

Lemma broadcastSignedTx_txHash_witness :
  exists r,
    (broadcastSignedTx (V := unit) hashlessNode "0x0a8f" None start).2 = Ok r /\
    txHash r = Str "".
Proof.
  destruct (broadcastSignedTx_txHash (V := unit) hashlessNode "0x0a8f" None
              start tt tt
              (mkTxResult 0 "" Undefined Null Undefined None)
              ltac:(discriminate) eq_refl eq_refl eq_refl)
    as (r & Hr & _ & Hempty).
  exists r. split; [exact Hr|]. by apply Hempty.
Defined.

(** C9. Whatever the input, the registry and the node do, a call of
    [broadcastSignedTx] either returns a result or throws. A returned
    result has [success] true, carries as [responses] the very answer the
    node gave to [broadcastTx], whose code is 0, and is fully populated
    ([txHash] taken from that answer, [decodedMessages] present exactly
    when a registry was given). There is no result with [success] false.
    Every failure is a thrown error whose message is not empty. *)
Theorem broadcastSignedTx_result_invariant {V W : Type}
    (node : Stargate W) (signedTxHex : string)
    (messageRegistry : option (gmap string (@decoder V)))
    (s : st W bevent) :
  match (broadcastSignedTx node signedTxHex messageRegistry s).2 with
  | Ok r =>
      success r = true /\
      code (responses r) = 0 /\
      (exists w, (broadcastTx node (hexDecode (strip0x signedTxHex)) w).2
                 = Ok (responses r)) /\
      txHash r = extractTxHash (responses r) /\
      (is_Some (decodedMessages r) <-> is_Some messageRegistry)
  | Throw e => message e <> ""
  end.
Proof.
  assert (forall e, message (rethrown e) <> "") as Hmsg.
  { intros e. unfold rethrown, or_default. simpl. by case_decide. }
  rewrite broadcastSignedTx_run.
  destruct (decide (signedTxHex = "")); [apply Hmsg|]. simpl.
  destruct (connect node _ (world s)) as [w1 [[]|e]]; [|apply Hmsg].
  destruct (broadcastTx node _ w1) as [w2 [result|e]] eqn:Hb; [|apply Hmsg].
  destruct (decide (code result <> 0)) as [|Hcode]; [apply Hmsg|].
  assert (code result = 0) as Hzero by lia.
  assert (exists w, (broadcastTx node (hexDecode (strip0x signedTxHex)) w).2
                    = Ok result) as Hnode.
  { exists w1. by rewrite Hb. }
  destruct messageRegistry as [registry|]; simpl.
  - destruct (extractAndDecodeMessages _ registry); simpl; [|apply Hmsg].
    repeat split; eauto.
  - repeat split; try done. all: by intros [? ?].
Qed.

(** ** Generic query dispatcher *)

Section QueryFacts.
Context {Req Resp W : Type}.
Implicit Types (tm : Tendermint W) (ctor : ServiceCtor Req Resp W)
  (service : Service Req Resp W) (s : st W (qevent Req Resp))
  (fn : Req -> W -> W * result Resp).

(** [queryAny], step by step: the connection, the constructor, the body
    of the [try] block, and the [finally] block after it. *)
Lemma queryAny_run tm ctor methodName reqCandidates s :
  queryAny tm ctor methodName reqCandidates s =
  match tm_connect tm nodeUrl (world s) with
  | (w0, Throw e) => (mkSt w0 (log s ++ [QConnect nodeUrl]), Throw e)
  | (w0, Ok _) =>
      match ctor w0 with
      | (w1, Throw e) => (mkSt w1 (log s ++ [QConnect nodeUrl]), Throw e)
      | (w1, Ok service) =>
          let s2r :=
            dispatch service methodName reqCandidates
              (mkSt w1 (log s ++ [QConnect nodeUrl])) in
          (mkSt (tm_disconnect tm (world s2r.1)) (log s2r.1 ++ [QDisconnect]),
           s2r.2)
      end
  end.
Proof.
  unfold queryAny, getQueryService, try_finally, bind, emit, extern, ret, close.
  simpl. fold nodeUrl.
  destruct (tm_connect tm nodeUrl (world s)) as [w0 [[]|e]]; [|done]. simpl.
  destruct (ctor w0) as [w1 [service|e]]; [|done]. simpl.
  by destruct (dispatch service methodName reqCandidates _).
Qed.

(** The loop returns at the first call that succeeds. *)
Lemma tryCandidates_ok fn reqCandidates lastError s s' resp :
  tryCandidates fn lastError reqCandidates s = (s', Ok resp) ->
  exists pre req post errs,
    reqCandidates = pre ++ req :: post /\
    length errs = length pre /\
    log s' = log s ++ zip_with failed pre errs ++ [QCall req (Ok resp)].
Proof.
  revert lastError s.
  induction reqCandidates as [|req rest IH]; intros lastError s; simpl.
  { unfold throw. intros [= _ ?]. }
  unfold try_catch, call.
  destruct (fn req (world s)) as [w1 [r|e]] eqn:Hfn.
  - intros [= <- ->]. exists [], req, rest, []. by simpl.
  - intros Hrest. apply IH in Hrest as (pre & q & post & errs & -> & Hlen & Hlog).
    exists (req :: pre), q, post, (e :: errs). simpl.
    split; [done|]. split; [by rewrite Hlen|].
    rewrite Hlog. simpl. by rewrite <-(assoc_L (++)).
Qed.

(** When every call fails, every candidate is tried, in order, and the
    error thrown is the last one, or the one the loop started with. *)
Lemma tryCandidates_allFail fn reqCandidates lastError s w' errs :
  allFail fn (world s) reqCandidates = Some (w', errs) ->
  tryCandidates fn lastError reqCandidates s =
  (mkSt w' (log s ++ zip_with failed reqCandidates errs),
   Throw (default
            (default (mkError "All request candidates failed.") lastError)
            (last errs))).
Proof.
  revert lastError s errs.
  induction reqCandidates as [|req rest IH]; intros lastError s errs; simpl.
  { intros [= <- <-]. simpl. rewrite app_nil_r. unfold throw.
    by destruct s, lastError. }
  unfold try_catch, call.
  destruct (fn req (world s)) as [w1 [r|e]] eqn:Hfn; [done|].
  destruct (allFail fn w1 rest) as [[w2 errs']|] eqn:Hrest; [|done].
  intros [= <- <-].
  rewrite (IH (Some e) (mkSt w1 (log s ++ [QCall req (Throw e)])) errs')
    by done.
  simpl. rewrite <-(assoc_L (++)). simpl. do 2 f_equal.
  rewrite last_cons. by destruct (last errs').
Qed.

Lemma closes_app (l1 l2 : list (qevent Req Resp)) :
  closes (l1 ++ l2) = (closes l1 + closes l2)%nat.
Proof. unfold closes. by rewrite List.filter_app, length_app. Qed.

(** The [try] block logs calls only. *)
Lemma dispatch_log service methodName reqCandidates s :
  exists calls,
    log (dispatch service methodName reqCandidates s).1 = log s ++ calls /\
    forallb isCall calls = true.
Proof.
  unfold dispatch.
  destruct (readProp service methodName) as [[fn|]|];
    [|exists []; by rewrite app_nil_r..].
  generalize (@None Error) as lastError. revert s.
  induction reqCandidates as [|req rest IH]; intros s lastError; simpl.
  { exists []. by rewrite app_nil_r. }
  unfold try_catch, call.
  destruct (fn req (world s)) as [w1 [r|e]] eqn:Hfn.
  - by exists [QCall req (Ok r)].
  - destruct (IH (mkSt w1 (log s ++ [QCall req (Throw e)])) (Some e))
      as (calls & Hlog & Hcalls).
    exists (QCall req (Throw e) :: calls). simpl in *.
    split; [|done]. by rewrite Hlog, <-(assoc_L (++)).
Qed.
End QueryFacts.

Section QueryClaims.
Context {Req Resp W : Type}.
Implicit Types (tm : Tendermint W) (ctor : ServiceCtor Req Resp W)
  (service : Service Req Resp W) (s : st W (qevent Req Resp))
  (fn : Req -> W -> W * result Resp).

(** [getQueryService] returns exactly when the connection opens and the
    constructor returns. *)
Lemma getQueryService_ok tm ctor s :
  is_ok (getQueryService tm ctor s).2 = true ->
  exists w0 w1 service,
    tm_connect tm nodeUrl (world s) = (w0, Ok tt) /\
    ctor w0 = (w1, Ok service).
Proof.
  unfold getQueryService, bind, emit, extern, ret. simpl. fold nodeUrl.
  destruct (tm_connect tm nodeUrl (world s)) as [w0 [[]|e]]; [|done]. simpl.
  destruct (ctor w0) as [w1 [service|e]] eqn:Hctor; [|done].
  by exists w0, w1, service.
Qed.

(** Outside the claims: [close] exists only once [getQueryService] has
    returned; when the constructor of the service throws after the
    connection was opened, [queryAny] propagates that error and logs no
    release. *)
Lemma queryAny_ctor_throws tm ctor methodName reqCandidates s w0 w1 e :
  tm_connect tm nodeUrl (world s) = (w0, Ok tt) ->
  ctor w0 = (w1, Throw e) ->
  queryAny tm ctor methodName reqCandidates s =
    (mkSt w1 (log s ++ [QConnect nodeUrl]), Throw e).
Proof. intros Hc Hctor. by rewrite queryAny_run, Hc, Hctor. Qed.

(** Whenever [getQueryService] has returned the service and its
    [close] function, the release of the connection is logged exactly
    once, as the last event of the call: nothing releases the connection
    before the [try] block is left, whether it is left with a response,
    with the method-not-found error or with the error of the
    candidates. *)
Lemma queryAny_closes_once tm ctor methodName reqCandidates s :
  is_ok (getQueryService tm ctor s).2 = true ->
  exists evs,
    log (queryAny tm ctor methodName reqCandidates s).1
      = log s ++ evs ++ [QDisconnect] /\
    closes evs = 0%nat /\
    closes (evs ++ [QDisconnect]) = 1%nat.
Proof.
  intros (w0 & w1 & service & Hc & Hctor)%getQueryService_ok.
  rewrite queryAny_run, Hc, Hctor. simpl.
  destruct (dispatch_log service methodName reqCandidates
              (mkSt w1 (log s ++ [QConnect nodeUrl])))
    as (calls & -> & Hcalls).
  assert (closes (QConnect nodeUrl :: calls) = 0%nat) as Hnone.
  { unfold closes. simpl. clear -Hcalls.
    induction calls as [|ev calls IH]; [done|].
    simpl in *. apply andb_prop in Hcalls as [Hev Hcalls].
    destruct ev; try done; simpl; by apply IH. }
  exists (QConnect nodeUrl :: calls). split; [|split].
  - simpl. by rewrite <-!(assoc_L (++)).
  - exact Hnone.
  - by rewrite closes_app, Hnone.
Qed.

(** A call of [queryAny] that returns a response has invoked the
    method on a prefix of the candidates, in list order: every candidate
    before the last one invoked failed, the last one invoked completed
    without error and its response is the one returned, and no candidate
    after it was invoked. *)
Lemma queryAny_response_log tm ctor methodName reqCandidates s resp :
  (queryAny tm ctor methodName reqCandidates s).2 = Ok resp ->
  exists pre req post errs,
    reqCandidates = pre ++ req :: post /\
    length errs = length pre /\
    log (queryAny tm ctor methodName reqCandidates s).1 =
      log s ++ [QConnect nodeUrl] ++ zip_with failed pre errs
            ++ [QCall req (Ok resp); QDisconnect].
Proof.
  rewrite queryAny_run.
  destruct (tm_connect tm nodeUrl (world s)) as [w0 [[]|e]]; [|done].
  destruct (ctor w0) as [w1 [service|e]]; [|done]. simpl.
  unfold dispatch.
  destruct (readProp service methodName) as [[fn|]|]; [|done..].
  destruct (tryCandidates fn None reqCandidates _) as [s2 r] eqn:Hrun.
  simpl. intros ->.
  apply tryCandidates_ok in Hrun as (pre & req & post & errs & -> & Hlen & Hlog).
  exists pre, req, post, errs. split; [done|]. split; [done|].
  rewrite Hlog. simpl. rewrite <-?(assoc_L (++)). simpl.
  by rewrite <-?(assoc_L (++)).
Qed.

(** C5. When the method resolves and every candidate fails, every
    candidate is tried, in order, the connection is released, and the
    error that [queryAny] throws is the one of the last candidate; with
    no candidate at all it is the error "All request candidates
    failed.". *)
Theorem queryAny_all_failed tm ctor methodName reqCandidates s
    w0 w1 service fn w' errs :
  tm_connect tm nodeUrl (world s) = (w0, Ok tt) ->
  ctor w0 = (w1, Ok service) ->
  readProp service methodName = Some (Method fn) ->
  allFail fn w1 reqCandidates = Some (w', errs) ->
  let run := queryAny tm ctor methodName reqCandidates s in
  log run.1 = log s ++ [QConnect nodeUrl]
                ++ zip_with failed reqCandidates errs ++ [QDisconnect] /\
  length errs = length reqCandidates /\
  (forall e, last errs = Some e -> run.2 = Throw e) /\
  (reqCandidates = [] ->
   run.2 = Throw (mkError "All request candidates failed.")).
Proof.
  intros Hc Hctor Hfn Hall run. subst run.
  rewrite queryAny_run, Hc, Hctor. simpl.
  unfold dispatch. rewrite Hfn.
  rewrite (tryCandidates_allFail fn reqCandidates None
             (mkSt w1 (log s ++ [QConnect nodeUrl])) w' errs) by done.
  simpl. split; [by rewrite <-!(assoc_L (++))|].
  split; [|split].
  - clear -Hall. revert w1 errs Hall.
    induction reqCandidates as [|req rest IH]; intros w1 errs; simpl.
    { by intros [= _ <-]. }
    destruct (fn req w1) as [w2 [r|e]]; [done|].
    destruct (allFail fn w2 rest) as [[w3 errs']|] eqn:Hrest; [|done].
    intros [= <- <-]. simpl. f_equal. by eapply IH.
  - by intros e ->.
  - intros ->. simpl in Hall. by injection Hall as _ <-.
Qed.
End QueryClaims.

Lemma getProp_own_key {V} (o : object V) k :
  In k (keys o) -> is_Some (getProp o k).
Proof.
  induction o as [|[k' v] o IH]; simpl; [done|].
  case_decide; [by eexists|].
  intros [?|?]; [done|by apply IH].
Qed.

(** The listed names are the own enumerable properties that hold a function;
    what the prototype chain holds has no part in it. *)
Lemma available_own {Req Resp W} (service : Service Req Resp W) :
  available service =
  List.filter
    (fun k => match getProp (own service) k with
              | Some (Method _) => true
              | _ => false
              end)
    (keys (own service)).
Proof.
  unfold available. apply List.filter_ext_in. intros k Hk.
  unfold isFunction, readProp.
  by destruct (getProp_own_key _ _ Hk) as [m ->].
Qed.

(** C6, as the code has it. When a property read of [methodName] on the
    service finds no function, [queryAny] invokes no candidate, releases
    the connection and throws an error whose message names the missing
    method and lists, in the order of [Object.keys] and separated by ", ",
    exactly the own enumerable properties of the service that hold a
    function. *)
Theorem queryAny_method_not_found {Req Resp W : Type}
    (tm : Tendermint W) (ctor : ServiceCtor Req Resp W)
    (methodName : string) (reqCandidates : list Req)
    (s : st W (qevent Req Resp)) (w0 w1 : W) (service : Service Req Resp W) :
  tm_connect tm nodeUrl (world s) = (w0, Ok tt) ->
  ctor w0 = (w1, Ok service) ->
  isFunction service methodName = false ->
  queryAny tm ctor methodName reqCandidates s =
    (mkSt (tm_disconnect tm w1) (log s ++ [QConnect nodeUrl; QDisconnect]),
     Throw (mkError
       ("Method '" +:+ methodName +:+ "' not found. Available: " +:+
        join ", "
          (List.filter
             (fun k => match getProp (own service) k with
                       | Some (Method _) => true
                       | _ => false
                       end)
             (keys (own service)))))).
Proof.
  intros Hc Hctor Hfn.
  rewrite queryAny_run, Hc, Hctor. simpl.
  unfold dispatch, isFunction in *.
  rewrite <-available_own.
  destruct (readProp service methodName) as [[fn|]|]; [done|..];
    simpl; by rewrite <-(assoc_L (++)).
Qed.

Lemma queryAny_method_not_found_witness :
  queryAny exampleTm exampleCtor "Foo" [1; 2]%nat start =
    (mkSt tt [QConnect nodeUrl; QDisconnect],
     Throw (mkError "Method 'Foo' not found. Available: GetRegistry, Reject")).
Proof.
  exact (queryAny_method_not_found exampleTm exampleCtor "Foo" [1; 2]%nat
           start tt tt exampleService eq_refl eq_refl eq_refl).
Defined.

(** C6 fails as stated: on a service that inherits [toString], the name
    "toString" resolves to a function, and [queryAny] does invoke it when
    asked to, yet the method-not-found message does not list it. *)
Lemma queryAny_available_omits_inherited :
  (queryAny exampleTm exampleCtor "Foo" [1; 2]%nat start).2 =
    Throw (mkError "Method 'Foo' not found. Available: GetRegistry, Reject") /\
  isFunction exampleService "toString" = true /\
  In "toString" (callableMembers exampleService) /\
  ~ In "toString" (available exampleService) /\
  (queryAny exampleTm exampleCtor "toString" [1]%nat start).2 =
    Ok "[object Object]".
Proof.
  split; [reflexivity|]. split; [reflexivity|]. split.
  { vm_compute. tauto. }
  split; [|reflexivity].
  vm_compute. intros [H|[H|[]]]; discriminate H.
Qed.

Lemma queryAny_closes_once_witness :
  closes (log (queryAny exampleTm exampleCtor "GetRegistry" [1; 2; 3]%nat
                 start).1) = 1%nat /\
  closes (log (queryAny exampleTm exampleCtor "Foo" [1; 2]%nat start).1)
    = 1%nat /\
  closes (log (queryAny exampleTm exampleCtor "Reject" [1; 2]%nat start).1)
    = 1%nat.
Proof.
  split; [|split].
  - destruct (queryAny_closes_once exampleTm exampleCtor "GetRegistry"
                [1; 2; 3]%nat start eq_refl) as (evs & -> & _ & Hone).
    exact Hone.
  - destruct (queryAny_closes_once exampleTm exampleCtor "Foo"
                [1; 2]%nat start eq_refl) as (evs & -> & _ & Hone).
    exact Hone.
  - destruct (queryAny_closes_once exampleTm exampleCtor "Reject"
                [1; 2]%nat start eq_refl) as (evs & -> & _ & Hone).
    exact Hone.
Defined.

Lemma queryAny_all_failed_witness :
  (queryAny exampleTm exampleCtor "Reject" [1; 2]%nat start).2 =
    Throw (mkError "bad request 2") /\
  (queryAny exampleTm exampleCtor "Reject" [] start).2 =
    Throw (mkError "All request candidates failed.").
Proof.
  split.
  - exact (proj1 (proj2 (proj2
      (queryAny_all_failed exampleTm exampleCtor "Reject" [1; 2]%nat start
         tt tt exampleService rejectingMethod tt
         [mkError "bad request 1"; mkError "bad request 2"]
         eq_refl eq_refl eq_refl eq_refl))) _ eq_refl).
  - exact (proj2 (proj2 (proj2
      (queryAny_all_failed exampleTm exampleCtor "Reject" [] start
         tt tt exampleService rejectingMethod tt []
         eq_refl eq_refl eq_refl eq_refl))) eq_refl).
Defined.


(** * Further properties of the code *)

(** ** Hexadecimal decoding *)

Lemma unhex_range c v : unhex c = Some v -> 0 <= v < 16.
Proof.
  unfold unhex. repeat case_decide; intros [= <-]; lia.
Qed.

Lemma hex_pair_value hi lo :
  0 <= hi < 16 -> 0 <= lo < 16 -> Z.lor (Z.shiftl hi 4) lo = 16 * hi + lo.
Proof.
  intros Hhi Hlo.
  assert (Z.land (Z.shiftl hi 4) lo = 0) as Hland.
  { apply Z.bits_inj'. intros n Hn.
    rewrite Z.land_spec, Z.bits_0.
    destruct (decide (n < 4)) as [Hlt|Hge].
    - rewrite Z.shiftl_spec_low by done. done.
    - rewrite (Z.bits_above_log2 lo n); [by rewrite andb_false_r|lia|].
      destruct (decide (lo = 0)) as [->|Hne]; [simpl; lia|].
      assert (Z.log2 lo < 4); [|lia].
      apply Z.log2_lt_pow2; simpl; lia. }
  rewrite <-Z.lxor_lor by done.
  rewrite <-Z.add_nocarry_lxor by done.
  rewrite Z.shiftl_mul_pow2 by lia. simpl. lia.
Qed.

(** X3. Decoding distributes over concatenation when the first part is
    well-formed. *)
Theorem hexDecode_app (s1 s2 : string) :
  well_formed_hex s1 = true ->
  hexDecode (s1 +:+ s2) = hexDecode s1 ++ hexDecode s2.
Proof.
  unfold well_formed_hex.
  induction s1 as [|a|a b s1 IH] using string_pair_ind.
  - done.
  - simpl. by rewrite andb_false_r.
  - rewrite !string_app_cons. simpl.
    destruct (unhex a) as [hi|] eqn:Ha; simpl; [|done].
    destruct (unhex b) as [lo|] eqn:Hb; simpl; [|done].
    intros Hwf. by rewrite IH.
Qed.

Lemma hexDecode_app_witness :
  hexDecode ("0a8f" +:+ "01zz") = [10; 143] ++ [1].
Proof. exact (hexDecode_app "0a8f" "01zz" eq_refl). Defined.

Lemma strip0x_other a b rest :
  (a, b) <> ("0"%char, "x"%char) ->
  strip0x (String a (String b rest)) = String a (String b rest).
Proof.
  intros Hne.
  destruct a as [[] [] [] [] [] [] [] []]; try reflexivity.
  destruct b as [[] [] [] [] [] [] [] []]; try reflexivity.
  by destruct Hne.
Qed.

Lemma strip0x_short a : strip0x (String a "") = String a "".
Proof. destruct a as [[] [] [] [] [] [] [] []]; reflexivity. Qed.

(** X4. Both input formats give the same bytes: a well-formed hex string is
    left alone by the prefix stripping (an "x" is no hex digit), and the
    same string behind "0x" is decoded to the same bytes. *)
Theorem strip0x_both_formats (s : string) :
  well_formed_hex s = true ->
  strip0x s = s /\
  hexDecode (strip0x ("0x" +:+ s)) = hexDecode (strip0x s).
Proof.
  intros Hwf.
  assert (strip0x s = s) as Hs.
  { destruct s as [|a [|b rest]]; [done|apply strip0x_short|].
    apply strip0x_other. intros [= -> ->].
    unfold well_formed_hex in Hwf. simpl in Hwf. done. }
  split; [exact Hs|]. by rewrite Hs.
Qed.

Lemma strip0x_both_formats_witness :
  strip0x "0a8f01" = "0a8f01" /\
  hexDecode (strip0x ("0x" +:+ "0a8f01")) = hexDecode (strip0x "0a8f01").
Proof. exact (strip0x_both_formats "0a8f01" eq_refl). Defined.

(** ** Byte maps *)

Lemma toUint8_byte v : is_byte (toUint8 v).
Proof.
  unfold is_byte. destruct v as [[|z]|]; simpl; [lia| |lia].
  apply Z.mod_pos_bound. lia.
Qed.

(** X5. Whatever the object, the rebuilt array has one element per property,
    neither more (gaps between indices are not filled) nor less, and every
    element is a byte. *)
Theorem decimalBytesToUint8Array_shape (o : object number) :
  length (decimalBytesToUint8Array o) = length o /\
  Forall is_byte (decimalBytesToUint8Array o).
Proof.
  unfold decimalBytesToUint8Array, sortedKeys, keys. split.
  - by rewrite length_fmap, sort_perm, !length_fmap.
  - apply Forall_fmap, Forall_forall. intros key _. apply toUint8_byte.
Qed.

Lemma rebuild_indexedFrom_wrap i vs :
  0 <= i ->
  (fun key => toUint8 (getProp (indexedFrom i vs) (number_to_string key)))
    <$> (Number <$> keys (indexedFrom i vs)) = (fun v => v `mod` 256) <$> vs.
Proof.
  revert i. induction vs as [|v vs IH]; intros i Hi; simpl; [done|].
  rewrite Number_pretty by done. simpl.
  rewrite decide_True by done. simpl. f_equal.
  etrans; [|apply (IH (i + 1)); lia].
  rewrite <-!list_fmap_compose.
  apply Forall_fmap_ext_1.
  eapply Forall_impl; [apply (keys_indexedFrom (i + 1)); lia|].
  intros k (j & -> & Hj). simpl.
  rewrite Number_pretty by lia. simpl.
  rewrite decide_False; [done|].
  intros Heq%(inj pretty). lia.
Qed.

Lemma is_num_keys_indexed vs : Forall is_num (Number <$> keys (indexed vs)).
Proof.
  apply Forall_fmap.
  eapply Forall_impl; [apply (keys_indexedFrom 0); lia|].
  intros k (j & -> & Hj). simpl. by rewrite Number_pretty.
Qed.

(** X6. Values outside [0, 255] wrap around: an index-keyed object holding the
    integers [vs], in any order of its properties, is rebuilt as [vs]
    reduced modulo 256, element by element. *)
Theorem decimalBytesToUint8Array_wraps (vs : list Z) (o : object number) :
  o ≡ₚ indexed vs ->
  decimalBytesToUint8Array o = (fun v => v `mod` 256) <$> vs.
Proof.
  intros Hp.
  assert (Number <$> keys o ≡ₚ Number <$> keys (indexed vs)) as Hk.
  { unfold keys. by rewrite Hp. }
  assert (sortedKeys o = Number <$> keys (indexed vs)) as Heq.
  { apply (StronglySorted_unique num_le).
    - apply sort_sorted. rewrite Hk. apply is_num_keys_indexed.
    - by apply sorted_keys_indexedFrom.
    - unfold sortedKeys. by rewrite sort_perm. }
  unfold decimalBytesToUint8Array. rewrite Heq.
  rewrite <-(rebuild_indexedFrom_wrap 0 vs) by done.
  apply list_fmap_ext. intros _ key _. simpl. f_equal.
  apply getProp_perm; [by apply NoDup_keys_indexedFrom|done].
Qed.

Lemma decimalBytesToUint8Array_wraps_witness :
  decimalBytesToUint8Array [("1", Num (-1)); ("0", Num 300)] = [44; 255].
Proof.
  apply (decimalBytesToUint8Array_wraps [300; -1]).
  apply Permutation_swap.
Defined.

(** X7. With distinct keys that are all numeric, the rebuilt array does not
    depend on the order in which the object lists its properties. *)
Theorem decimalBytesToUint8Array_order_independent (o o' : object number) :
  NoDup (keys o) ->
  Forall is_num (Number <$> keys o) ->
  o ≡ₚ o' ->
  decimalBytesToUint8Array o = decimalBytesToUint8Array o'.
Proof.
  intros Hnd Hnum Hp.
  assert (Number <$> keys o ≡ₚ Number <$> keys o') as Hk.
  { unfold keys. by rewrite Hp. }
  assert (sortedKeys o = sortedKeys o') as Heq.
  { apply (StronglySorted_unique num_le).
    - by apply sort_sorted.
    - apply sort_sorted. by rewrite <-Hk.
    - unfold sortedKeys. by rewrite !sort_perm. }
  unfold decimalBytesToUint8Array. rewrite Heq.
  apply list_fmap_ext. intros _ key _. simpl. f_equal.
  symmetry. by apply getProp_perm.
Qed.

Lemma decimalBytesToUint8Array_order_independent_witness :
  decimalBytesToUint8Array [("7", Num 1); ("2", Num 2); ("30", Num 3)] =
  decimalBytesToUint8Array [("30", Num 3); ("7", Num 1); ("2", Num 2)].
Proof.
  apply decimalBytesToUint8Array_order_independent.
  - apply (bool_decide_unpack _). by vm_compute.
  - repeat constructor.
  - symmetry. apply (Permutation_cons_append [("7", Num 1); ("2", Num 2)]).
Defined.

(** ** Decoding a batch of message responses *)

(** The entries of a decoded batch, one by one. *)
Lemma decodeAll_entries {V : Type}
    (msgs : list MsgResponse) (registry : gmap string (@decoder V)) :
  exists ds,
    decodeAll registry msgs = Ok ds /\
    length ds = length msgs /\
    forall (i : nat) (m : MsgResponse),
      msgs !! i = Some m ->
      match value m with
      | Some o =>
          exists dv,
            decodeProtobufMessage (typeUrl m) (decimalBytesToUint8Array o)
              registry = Ok dv /\
            ds !! i = Some (mkDecodedMessage (typeUrl m) dv)
      | None =>
          ds !! i =
            Some (mkDecodedMessage (or_default (typeUrl m) "unknown")
                    (ErrorOnly "Cannot convert undefined or null to object"))
      end.
Proof.
  induction msgs as [|m0 msgs (ds & Hds & Hlen & Hentries)]; simpl.
  { exists []. split; [done|]. split; [done|]. by intros i m ?. }
  pose proof (decodeOne_ok registry m0) as Hok.
  destruct (decodeOne registry m0) as [d0|] eqn:Hd0; [|done]. simpl.
  rewrite Hds. simpl. exists (d0 :: ds).
  split; [done|]. split; [simpl; by rewrite Hlen|].
  intros [|i] m; simpl; [|by apply Hentries].
  intros [= <-]. unfold decodeOne in Hd0.
  destruct (value m0) as [o|]; simpl in Hd0.
  - assert (is_ok (decodeProtobufMessage (typeUrl m0)
                     (decimalBytesToUint8Array o) registry) = true) as Hdv.
    { unfold decodeProtobufMessage.
      destruct (registry !! typeUrl m0) as [decode|]; [|done]. simpl.
      by destruct (decode _). }
    destruct (decodeProtobufMessage _ _ registry) as [dv|]; [|done].
    simpl in Hd0. injection Hd0 as <-. by exists dv.
  - by injection Hd0 as <-.
Qed.

(** X8. [extractAndDecodeMessages] never throws and yields one entry per
    message response, in the order of the responses. The entry of a
    response that carries a byte map keeps its [typeUrl] and holds what
    [decodeProtobufMessage] returns for the rebuilt bytes; the entry of a
    response without a byte map holds the error message alone, under the
    response's [typeUrl], or under "unknown" when that is empty. No entry
    depends on the other responses. *)
Theorem extractAndDecodeMessages_entries {V : Type}
    (msgs : list MsgResponse) (registry : gmap string (@decoder V)) :
  exists ds,
    extractAndDecodeMessages (Some msgs) registry = Ok ds /\
    length ds = length msgs /\
    forall (i : nat) (m : MsgResponse),
      msgs !! i = Some m ->
      match value m with
      | Some o =>
          exists dv,
            decodeProtobufMessage (typeUrl m) (decimalBytesToUint8Array o)
              registry = Ok dv /\
            ds !! i = Some (mkDecodedMessage (typeUrl m) dv)
      | None =>
          ds !! i =
            Some (mkDecodedMessage (or_default (typeUrl m) "unknown")
                    (ErrorOnly "Cannot convert undefined or null to object"))
      end.
Proof. exact (decodeAll_entries msgs registry). Qed.

Lemma extractAndDecodeMessages_entries_witness :
  extractAndDecodeMessages (Some exampleBatch) exampleRegistry =
  Ok [mkDecodedMessage "/known.Response" (Decoded "decoded response");
      mkDecodedMessage "/other.Response"
        (Placeholder "Unknown message type: /other.Response" [1]);
      mkDecodedMessage "unknown"
        (ErrorOnly "Cannot convert undefined or null to object")].
Proof.
  destruct (extractAndDecodeMessages_entries exampleBatch exampleRegistry)
    as (ds & -> & Hlen & Hentries).
  pose proof (Hentries 0%nat _ eq_refl) as (dv0 & Hdv0 & H0).
  pose proof (Hentries 1%nat _ eq_refl) as (dv1 & Hdv1 & H1).
  pose proof (Hentries 2%nat _ eq_refl) as H2.
  vm_compute in Hdv0, Hdv1. injection Hdv0 as <-. injection Hdv1 as <-.
  destruct ds as [|d0 [|d1 [|d2 [|d3 ds]]]]; try discriminate Hlen.
  simpl in H0, H1, H2.
  injection H0 as ->. injection H1 as ->. injection H2 as ->.
  reflexivity.
Defined.

(** ** Broadcast pipeline: failures *)

Lemma or_default_nonempty s d : s <> "" -> or_default s d = s.
Proof. intros Hs. unfold or_default. by rewrite decide_False. Qed.

Lemma rethrown_rejected (result : TxResult) :
  rethrown (rejected result) = rejected result.
Proof.
  unfold rethrown. rewrite or_default_nonempty; [done|].
  unfold rejected. simpl. rewrite string_app_cons. discriminate.
Qed.

Section BroadcastFailures.
Context {V W : Type}.
Implicit Types (node : Stargate W) (s : st W bevent)
  (messageRegistry : option (gmap string (@decoder V))).

(** X9. An empty input is rejected before any I/O: the node is not contacted,
    nothing is logged, and the error says "signedTxHex is required". *)
Theorem broadcastSignedTx_empty_input node messageRegistry s :
  broadcastSignedTx node "" messageRegistry s =
  (s, Throw (mkError "signedTxHex is required")).
Proof. by rewrite broadcastSignedTx_run. Qed.

(** X10. A non-zero result code is never a success: after the one submission
    the call throws "Broadcast failed (code <code>): <rawLog>", with or
    without a registry. *)
Theorem broadcastSignedTx_rejected_by_node
    node signedTxHex messageRegistry s w1 w2 result :
  signedTxHex <> "" ->
  connect node (rpcUrlOf (COSMOS_RPC_URL node)) (world s) = (w1, Ok tt) ->
  broadcastTx node (hexDecode (strip0x signedTxHex)) w1 = (w2, Ok result) ->
  code result <> 0 ->
  broadcastSignedTx node signedTxHex messageRegistry s =
  (mkSt w2 (log s ++ [EvConnect (rpcUrlOf (COSMOS_RPC_URL node));
                      EvBroadcastTx (hexDecode (strip0x signedTxHex))]),
   Throw (mkError ("Broadcast failed (code " +:+ pretty (code result)
                   +:+ "): " +:+ rawLog result))).
Proof.
  intros Hne Hc Hb Hcode.
  rewrite broadcastSignedTx_run, decide_False by done. simpl.
  rewrite Hc, Hb, decide_True by done.
  by rewrite rethrown_rejected, <-(assoc_L (++)).
Qed.

(** X11. When the connection cannot be opened nothing is submitted, and the
    error thrown carries the message of the connection error, or "Broadcast
    failed" when that message is empty. *)
Theorem broadcastSignedTx_connect_failure
    node signedTxHex messageRegistry s w1 e :
  signedTxHex <> "" ->
  connect node (rpcUrlOf (COSMOS_RPC_URL node)) (world s) = (w1, Throw e) ->
  broadcastSignedTx node signedTxHex messageRegistry s =
  (mkSt w1 (log s ++ [EvConnect (rpcUrlOf (COSMOS_RPC_URL node))]),
   Throw (mkError (if decide (message e = "") then "Broadcast failed"
                   else message e))).
Proof.
  intros Hne Hc.
  rewrite broadcastSignedTx_run, decide_False by done. simpl.
  by rewrite Hc.
Qed.

(** X12. When the submission itself throws, the error is re-thrown the same
    way, and the transaction was handed to the node once. *)
Theorem broadcastSignedTx_submit_failure
    node signedTxHex messageRegistry s w1 w2 e :
  signedTxHex <> "" ->
  connect node (rpcUrlOf (COSMOS_RPC_URL node)) (world s) = (w1, Ok tt) ->
  broadcastTx node (hexDecode (strip0x signedTxHex)) w1 = (w2, Throw e) ->
  broadcastSignedTx node signedTxHex messageRegistry s =
  (mkSt w2 (log s ++ [EvConnect (rpcUrlOf (COSMOS_RPC_URL node));
                      EvBroadcastTx (hexDecode (strip0x signedTxHex))]),
   Throw (mkError (if decide (message e = "") then "Broadcast failed"
                   else message e))).
Proof.
  intros Hne Hc Hb.
  rewrite broadcastSignedTx_run, decide_False by done. simpl.
  by rewrite Hc, Hb, <-(assoc_L (++)).
Qed.

(** X13. Nothing is retried: a call contacts the node with at most one
    connection followed by at most one submission, of the decoded bytes. *)
Theorem broadcastSignedTx_no_retry node signedTxHex messageRegistry s :
  let url := rpcUrlOf (COSMOS_RPC_URL node) in
  let txBytes := hexDecode (strip0x signedTxHex) in
  let l := log (broadcastSignedTx node signedTxHex messageRegistry s).1 in
  l = log s \/
  l = log s ++ [EvConnect url] \/
  l = log s ++ [EvConnect url; EvBroadcastTx txBytes].
Proof.
  intros url txBytes l. subst l. rewrite broadcastSignedTx_run.
  destruct (decide (signedTxHex = "")); [by left|]. simpl.
  destruct (connect node _ (world s)) as [w1 [[]|e]]; [|right; by left].
  right; right. rewrite <-(assoc_L (++)). simpl.
  destruct (broadcastTx node _ w1) as [w2 [result|e]]; [|done].
  destruct (decide (code result <> 0)); [done|].
  destruct messageRegistry as [registry|]; [|done].
  by destruct (extractAndDecodeMessages _ registry).
Qed.

(** X14. The call returns exactly when the input is not empty, the connection
    opens and the node answers the submission with code 0; what the
    answer's message responses hold, and whether they can be decoded, has no
    part in it. *)
Theorem broadcastSignedTx_succeeds_iff node signedTxHex messageRegistry s :
  is_ok (broadcastSignedTx node signedTxHex messageRegistry s).2 = true <->
  signedTxHex <> "" /\
  exists w1 w2 result,
    connect node (rpcUrlOf (COSMOS_RPC_URL node)) (world s) = (w1, Ok tt) /\
    broadcastTx node (hexDecode (strip0x signedTxHex)) w1 = (w2, Ok result) /\
    code result = 0.
Proof.
  rewrite broadcastSignedTx_run. split.
  - destruct (decide (signedTxHex = "")); [done|]. simpl.
    destruct (connect node _ (world s)) as [w1 [[]|e]]; [|done].
    destruct (broadcastTx node _ w1) as [w2 [result|e]] eqn:Hb; [|done].
    destruct (decide (code result <> 0)); [done|].
    intros _. split; [done|]. exists w1, w2, result.
    split; [done|]. split; [done|lia].
  - intros (Hne & w1 & w2 & result & Hc & Hb & Hcode).
    rewrite decide_False by done. simpl.
    rewrite Hc, Hb, decide_False by (intros ?; done).
    destruct messageRegistry as [registry|]; [|done].
    pose proof (extractAndDecodeMessages_ok (msgResponses result) registry).
    by destruct (extractAndDecodeMessages _ registry).
Qed.
End BroadcastFailures.

Lemma broadcastSignedTx_rejected_by_node_witness :
  broadcastSignedTx (V := unit) refusingNode "0a8f" None start =
  (mkSt tt [EvConnect "http://node:26657"; EvBroadcastTx [10; 143]],
   Throw (mkError "Broadcast failed (code 5): insufficient funds")).
Proof.
  exact (broadcastSignedTx_rejected_by_node (V := unit) refusingNode "0a8f"
           None start tt tt _ ltac:(discriminate) eq_refl eq_refl
           ltac:(discriminate)).
Defined.

Lemma broadcastSignedTx_connect_failure_witness :
  broadcastSignedTx (V := unit) unreachableNode "0a8f" None start =
  (mkSt tt [EvConnect "http://localhost:26657"],
   Throw (mkError "connect ECONNREFUSED")).
Proof.
  exact (broadcastSignedTx_connect_failure (V := unit) unreachableNode "0a8f"
           None start tt _ ltac:(discriminate) eq_refl).
Defined.

Lemma broadcastSignedTx_submit_failure_witness :
  broadcastSignedTx (V := unit) droppingNode "0a8f" None start =
  (mkSt tt [EvConnect "http://localhost:26657"; EvBroadcastTx [10; 143]],
   Throw (mkError "Broadcast failed")).
Proof.
  exact (broadcastSignedTx_submit_failure (V := unit) droppingNode "0a8f"
           None start tt tt _ ltac:(discriminate) eq_refl eq_refl).
Defined.

(** ** Broadcast pipeline: decoded messages *)

(** X15. With a registry, a successful call reports one decoded message per
    message response of the node's answer, in the same order and under the
    same type URLs whenever the response carries a byte map; when the answer
    has no list of message responses the report is the empty list. *)
Theorem broadcastSignedTx_decodes_every_response {V W : Type}
    (node : Stargate W) (signedTxHex : string)
    (registry : gmap string (@decoder V)) (s : st W bevent)
    (r : BroadcastResult V) :
  (broadcastSignedTx node signedTxHex (Some registry) s).2 = Ok r ->
  exists ds,
    decodedMessages r = Some ds /\
    length ds = length (default [] (msgResponses (responses r))) /\
    forall (i : nat) (m : MsgResponse) (d : DecodedMessage V),
      default [] (msgResponses (responses r)) !! i = Some m ->
      ds !! i = Some d ->
      is_Some (value m) -> dm_typeUrl d = typeUrl m.
Proof.
  rewrite broadcastSignedTx_run.
  destruct (decide (signedTxHex = "")); [done|]. simpl.
  destruct (connect node _ (world s)) as [w1 [[]|e]]; [|done].
  destruct (broadcastTx node _ w1) as [w2 [result|e]]; [|done].
  destruct (decide (code result <> 0)); [done|].
  destruct (msgResponses result) as [msgs|] eqn:Hmsgs.
  - simpl. destruct (decodeAll_entries msgs registry)
      as (ds & -> & Hlen & Hentries).
    simpl. intros [= <-]. simpl. rewrite Hmsgs. simpl.
    exists ds. split; [done|]. split; [done|].
    intros i m d Hm Hd [o Ho].
    specialize (Hentries i m Hm). rewrite Ho in Hentries.
    destruct Hentries as (dv & _ & Hd'). rewrite Hd in Hd'.
    by injection Hd' as ->.
  - simpl. intros [= <-]. simpl. rewrite Hmsgs. simpl.
    exists []. split; [done|]. split; [done|]. by intros i m d ?.
Qed.

Lemma broadcastSignedTx_decodes_every_response_witness :
  exists r ds,
    (broadcastSignedTx reportingNode "0a8f" (Some exampleRegistry) start).2
      = Ok r /\
    decodedMessages r = Some ds /\ length ds = 3%nat /\
    txHash r = Str "F00D".
Proof.
  eexists. 
  destruct (broadcastSignedTx_decodes_every_response reportingNode "0a8f"
              exampleRegistry start _ eq_refl) as (ds & Hds & Hlen & _).
  exists ds. split; [reflexivity|]. split; [exact Hds|].
  split; [exact Hlen|reflexivity].
Defined.

(** ** The earlier pipeline *)

(** X16. The pipeline without response decoding behaves as the current one
    called without a registry: the same contacts with the node, the same
    error, and the same result but for the absent [decodedMessages]. *)
Theorem legacy_broadcastSignedTx_agrees {V W : Type}
    (node : Stargate W) (signedTxHex : string) (s : st W bevent) :
  Legacy.broadcastSignedTx node signedTxHex s =
  match broadcastSignedTx (V := V) node signedTxHex None s with
  | (s', Ok r) => (s', Ok (forgetDecoded r))
  | (s', Throw e) => (s', Throw e)
  end.
Proof.
  rewrite broadcastSignedTx_run.
  unfold Legacy.broadcastSignedTx, try_catch, bind, emit, extern, throw, ret.
  destruct (decide (signedTxHex = "")); [done|]. simpl.
  destruct (connect node _ (world s)) as [w1 [[]|e]]; [|done]. simpl.
  destruct (broadcastTx node _ w1) as [w2 [result|e]]; [|done].
  by destruct (decide (code result <> 0)).
Qed.

(** ** Query dispatcher: failures to open, and the calls made *)

Section QueryExtras.
Context {Req Resp W : Type}.
Implicit Types (tm : Tendermint W) (ctor : ServiceCtor Req Resp W)
  (service : Service Req Resp W) (s : st W (qevent Req Resp))
  (fn : Req -> W -> W * result Resp).

(** X17. When the connection cannot be opened, [queryAny] propagates the
    connection error unchanged: the service is not constructed, no
    candidate is tried, and there is nothing to release. *)
Theorem queryAny_connect_failure tm ctor methodName reqCandidates s w0 e :
  tm_connect tm nodeUrl (world s) = (w0, Throw e) ->
  queryAny tm ctor methodName reqCandidates s =
    (mkSt w0 (log s ++ [QConnect nodeUrl]), Throw e).
Proof. intros Hc. by rewrite queryAny_run, Hc. Qed.

(** X18. When the constructor of the service throws, the connection that was
    just opened is never released: [close] does not exist yet, the error is
    propagated and no candidate is tried. *)
Theorem queryAny_constructor_failure
    tm ctor methodName reqCandidates s w0 w1 e :
  tm_connect tm nodeUrl (world s) = (w0, Ok tt) ->
  ctor w0 = (w1, Throw e) ->
  queryAny tm ctor methodName reqCandidates s =
    (mkSt w1 (log s ++ [QConnect nodeUrl]), Throw e) /\
  closes (log (queryAny tm ctor methodName reqCandidates s).1)
    = closes (log s).
Proof.
  intros Hc Hctor. rewrite queryAny_run, Hc, Hctor. simpl.
  split; [done|]. rewrite closes_app. unfold closes at 2. simpl. lia.
Qed.

Lemma tryCandidates_calls fn reqCandidates lastError s :
  exists calls,
    log (tryCandidates fn lastError reqCandidates s).1 = log s ++ calls /\
    forallb isCall calls = true /\
    calledWith calls `prefix_of` reqCandidates.
Proof.
  revert lastError s.
  induction reqCandidates as [|req rest IH]; intros lastError s; simpl.
  { exists []. rewrite app_nil_r. by repeat split. }
  unfold try_catch, call.
  destruct (fn req (world s)) as [w1 [r|e]] eqn:Hfn.
  - exists [QCall req (Ok r)]. simpl. repeat split.
    apply (prefix_cons req []), prefix_nil.
  - destruct (IH (Some e) (mkSt w1 (log s ++ [QCall req (Throw e)])))
      as (calls & Hlog & Hcalls & Hpre).
    exists (QCall req (Throw e) :: calls). simpl in *.
    split; [by rewrite Hlog, <-(assoc_L (++))|].
    split; [done|]. by apply prefix_cons.
Qed.

(** X19. Whatever the outcome, once the service is there the method is called
    on a prefix of the candidates, in list order, and on nothing else:
    between the connection and its release the log holds calls only, at
    most one per candidate. *)
Theorem queryAny_calls_prefix tm ctor methodName reqCandidates s :
  is_ok (getQueryService tm ctor s).2 = true ->
  exists calls,
    log (queryAny tm ctor methodName reqCandidates s).1
      = log s ++ [QConnect nodeUrl] ++ calls ++ [QDisconnect] /\
    forallb isCall calls = true /\
    calledWith calls `prefix_of` reqCandidates /\
    (length calls <= length reqCandidates)%nat.
Proof.
  intros (w0 & w1 & service & Hc & Hctor)%getQueryService_ok.
  rewrite queryAny_run, Hc, Hctor. simpl.
  assert (exists calls,
    log (dispatch service methodName reqCandidates
           (mkSt w1 (log s ++ [QConnect nodeUrl]))).1
      = (log s ++ [QConnect nodeUrl]) ++ calls /\
    forallb isCall calls = true /\
    calledWith calls `prefix_of` reqCandidates) as (calls & -> & Hcalls & Hpre).
  { unfold dispatch.
    destruct (readProp service methodName) as [[fn|]|].
    - apply (tryCandidates_calls fn reqCandidates None).
    - exists []. simpl. rewrite app_nil_r. repeat split. apply prefix_nil.
    - exists []. simpl. rewrite app_nil_r. repeat split. apply prefix_nil. }
  exists calls. split; [by rewrite <-!(assoc_L (++))|].
  split; [done|]. split; [done|].
  apply prefix_length in Hpre.
  assert (length (calledWith calls) = length calls) as <-; [|done].
  clear -Hcalls. induction calls as [|ev calls IH]; [done|].
  simpl in Hcalls. apply andb_prop in Hcalls as [Hev Hcalls].
  destruct ev; try done. simpl. f_equal. by apply IH.
Qed.
End QueryExtras.

Lemma queryAny_connect_failure_witness :
  queryAny unreachableTm exampleCtor "GetRegistry" [1; 2]%nat start =
    (mkSt tt [QConnect nodeUrl], Throw (mkError "connect ECONNREFUSED")).
Proof.
  exact (queryAny_connect_failure unreachableTm exampleCtor "GetRegistry"
           [1; 2]%nat start tt _ eq_refl).
Defined.

Lemma queryAny_constructor_failure_witness :
  queryAny exampleTm throwingCtor "GetRegistry" [1; 2]%nat start =
    (mkSt tt [QConnect nodeUrl], Throw (mkError "rpc is not defined")).
Proof.
  exact (proj1 (queryAny_constructor_failure exampleTm throwingCtor
                  "GetRegistry" [1; 2]%nat start tt tt _ eq_refl eq_refl)).
Defined.

Lemma queryAny_calls_prefix_witness :
  exists calls,
    log (queryAny exampleTm exampleCtor "GetRegistry" [1; 2; 3]%nat start).1
      = [QConnect nodeUrl] ++ calls ++ [QDisconnect] /\
    calledWith calls `prefix_of` [1; 2; 3]%nat.
Proof.
  destruct (queryAny_calls_prefix exampleTm exampleCtor "GetRegistry"
              [1; 2; 3]%nat start eq_refl) as (calls & Hlog & _ & Hpre & _).
  exists calls. split; [exact Hlog|exact Hpre].
Defined.

(** ** HTTP boundary *)

Section RouteFacts.
Context {V W : Type} (decodeResponse : @decoder V).
Implicit Types (node : Stargate W) (s : st W bevent).

(** The route with a non-empty [signedTxHex]: the pipeline runs with the
    server's registry and its outcome is turned into a response. *)
Lemma createPresigned_run node hex s :
  hex <> "" ->
  createPresigned decodeResponse node (Some hex) s =
  match broadcastSignedTx node hex (Some (messageRegistry decodeResponse)) s with
  | (s', Ok r) => (s', Ok (mkHttpResponse 200 (Json r)))
  | (s', Throw e) => (s', Ok (mkHttpResponse 500 (ErrorJson (message e))))
  end.
Proof.
  intros Hne. unfold createPresigned. rewrite decide_False by done.
  unfold try_catch, bind, ret.
  by destruct (broadcastSignedTx node hex _ s) as [s' [r|e]].
Qed.

(** X20. The route always answers, and with one of three shapes: 400 with
    "signedTxHex required", without any contact with the node, exactly when
    the field is missing or empty; 200 with a result that has [success]
    true, code 0 and decoded messages; 500 with a non-empty error message
    otherwise. *)
Theorem createPresigned_response node signedTxHex s :
  exists resp,
    (createPresigned decodeResponse node signedTxHex s).2 = Ok resp /\
    (status resp = 400 <-> signedTxHex = None \/ signedTxHex = Some "") /\
    match body resp with
    | Json r =>
        status resp = 200 /\ success r = true /\ code (responses r) = 0 /\
        is_Some (decodedMessages r)
    | ErrorJson m =>
        (status resp = 400 /\ m = "signedTxHex required" /\
         (createPresigned decodeResponse node signedTxHex s).1 = s) \/
        (status resp = 500 /\ m <> "")
    end.
Proof.
  destruct signedTxHex as [hex|]; [|eexists; split; [done|]; simpl; tauto].
  destruct (decide (hex = "")) as [->|Hne].
  { eexists; split; [done|]. simpl. split; [tauto|]. left. done. }
  rewrite createPresigned_run, broadcastSignedTx_run by done.
  rewrite decide_False by done. simpl.
  assert (forall e, message (rethrown e) <> "") as Hmsg.
  { intros e. unfold rethrown, or_default. simpl. by case_decide. }
  assert (forall (s' : st W bevent) e,
    let run := (s', Ok (mkHttpResponse (A := BroadcastResult V) 500
                         (ErrorJson (message (rethrown e))))) in
    exists resp,
      run.2 = Ok resp /\
      (status resp = 400 <-> Some hex = None \/ Some hex = Some "") /\
      match body resp with
      | Json r =>
          status resp = 200 /\ success r = true /\ code (responses r) = 0 /\
          is_Some (decodedMessages r)
      | ErrorJson m =>
          (status resp = 400 /\ m = "signedTxHex required" /\ run.1 = s) \/
          (status resp = 500 /\ m <> "")
      end) as Hfail.
  { intros s' e run. eexists; split; [done|]. simpl. split.
    - split; [done|]. intros [?|[= ?]]; done.
    - right. split; [done|apply Hmsg]. }
  destruct (connect node _ (world s)) as [w1 [[]|e]]; [|apply Hfail].
  destruct (broadcastTx node _ w1) as [w2 [result|e]]; [|apply Hfail].
  destruct (decide (code result <> 0)) as [|Hcode]; [apply Hfail|].
  pose proof (extractAndDecodeMessages_ok (msgResponses result)
                (messageRegistry decodeResponse)) as Hok.
  destruct (extractAndDecodeMessages _ _) as [ds|]; [|done].
  eexists; split; [done|]. simpl. split.
  - split; [done|]. intros [?|[= ?]]; done.
  - repeat split; [lia|by eexists].
Qed.
End RouteFacts.

Section RouteOutcomes.
Context {V W : Type} (decodeResponse : @decoder V).
Implicit Types (node : Stargate W) (s : st W bevent).

(** X21. The server decodes one message type only: a response of any other type
    comes back as the "Unknown message type" placeholder with its raw
    bytes, and a response of that type as the decoder's value, or as the
    "Failed to decode" placeholder when the decoder throws. *)
Theorem messageRegistry_single_type (typeUrl : string) (messageBytes : list Z) :
  decodeProtobufMessage typeUrl messageBytes (messageRegistry decodeResponse) =
  Ok (if decide (typeUrl = "/elandnode.reg.v1.MsgRegisterLandRegistryResponse")
      then match decodeResponse messageBytes with
           | Ok v => Decoded v
           | Throw e =>
               Placeholder ("Failed to decode: " +:+ message e) messageBytes
           end
      else Placeholder ("Unknown message type: " +:+ typeUrl) messageBytes).
Proof.
  unfold decodeProtobufMessage, messageRegistry.
  case_decide as Hurl.
  - subst. rewrite lookup_singleton_eq. simpl.
    by destruct (decodeResponse messageBytes).
  - by rewrite lookup_singleton_ne.
Qed.

(** X22. A transaction that the node refuses is answered with status 500 and
    the node's code and log in the message. *)
Theorem createPresigned_rejection node hex s w1 w2 result :
  hex <> "" ->
  connect node (rpcUrlOf (COSMOS_RPC_URL node)) (world s) = (w1, Ok tt) ->
  broadcastTx node (hexDecode (strip0x hex)) w1 = (w2, Ok result) ->
  code result <> 0 ->
  (createPresigned decodeResponse node (Some hex) s).2 =
  Ok (mkHttpResponse 500
        (ErrorJson ("Broadcast failed (code " +:+ pretty (code result)
                    +:+ "): " +:+ rawLog result))).
Proof.
  intros Hne Hc Hb Hcode.
  rewrite createPresigned_run, broadcastSignedTx_run by done.
  rewrite decide_False by done. simpl.
  rewrite Hc, Hb, decide_True by done.
  by rewrite rethrown_rejected.
Qed.

(** X23. A transaction that the node accepts with code 0 is answered with
    status 200 and a result that carries the node's answer, the hash
    extracted from it, and one decoded message per message response. *)
Theorem createPresigned_accepted node hex s w1 w2 result :
  hex <> "" ->
  connect node (rpcUrlOf (COSMOS_RPC_URL node)) (world s) = (w1, Ok tt) ->
  broadcastTx node (hexDecode (strip0x hex)) w1 = (w2, Ok result) ->
  code result = 0 ->
  exists r ds,
    (createPresigned decodeResponse node (Some hex) s).2 =
      Ok (mkHttpResponse 200 (Json r)) /\
    success r = true /\ responses r = result /\
    txHash r = extractTxHash result /\
    decodedMessages r = Some ds /\
    length ds = length (default [] (msgResponses result)).
Proof.
  intros Hne Hc Hb Hcode.
  rewrite createPresigned_run, broadcastSignedTx_run by done.
  rewrite decide_False by done. simpl.
  rewrite Hc, Hb, decide_False by (intros ?; done).
  destruct (msgResponses result) as [msgs|] eqn:Hmsgs; simpl.
  - destruct (decodeAll_entries msgs (messageRegistry decodeResponse))
      as (ds & -> & Hlen & _).
    eexists _, ds. simpl. by repeat split.
  - eexists _, []. simpl. by repeat split.
Qed.
End RouteOutcomes.

Lemma createPresigned_rejection_witness :
  (createPresigned (V := string) (fun _ => Ok "decoded") refusingNode
     (Some "0x0a8f") start).2 =
  Ok (mkHttpResponse 500
        (ErrorJson "Broadcast failed (code 5): insufficient funds")).
Proof.
  exact (createPresigned_rejection (V := string) (fun _ => Ok "decoded")
           refusingNode "0x0a8f" start tt tt _ ltac:(discriminate)
           eq_refl eq_refl ltac:(discriminate)).
Defined.

Lemma createPresigned_accepted_witness :
  exists r ds,
    (createPresigned (V := string) (fun _ => Ok "decoded") reportingNode
       (Some "0x0a8f") start).2 = Ok (mkHttpResponse 200 (Json r)) /\
    txHash r = Str "F00D" /\
    decodedMessages r = Some ds /\ length ds = 3%nat.
Proof.
  destruct (createPresigned_accepted (V := string) (fun _ => Ok "decoded")
              reportingNode "0x0a8f" start tt tt _ ltac:(discriminate)
              eq_refl eq_refl eq_refl)
    as (r & ds & Hrun & _ & _ & Hhash & Hds & Hlen).
  exists r, ds. split; [exact Hrun|]. split; [exact Hhash|].
  split; [exact Hds|exact Hlen].
Defined.

Section RegistryRouteFacts.
Context {Req Resp W : Type}.
Implicit Types (tm : Tendermint W) (ctor : ServiceCtor Req Resp W)
  (service : Service Req Resp W) (s : st W (qevent Req Resp)).


(** X25. When the node cannot be reached the route answers 500 with the message
    of the connection error. *)
Theorem getRegistry_connect_failure tm ctor request s w0 e :
  tm_connect tm nodeUrl (world s) = (w0, Throw e) ->
  getRegistry tm ctor request s =
    (mkSt w0 (log s ++ [QConnect nodeUrl]),
     Ok (mkHttpResponse 500 (ErrorJson (message e)))).
Proof.
  intros Hc. unfold getRegistry, try_catch, bind, ret.
  by rewrite queryAny_run, Hc.
Qed.
End RegistryRouteFacts.


Lemma getRegistry_connect_failure_witness :
  getRegistry unreachableTm exampleCtor 2%nat start =
    (mkSt tt [QConnect nodeUrl],
     Ok (mkHttpResponse 500 (ErrorJson "connect ECONNREFUSED"))).
Proof.
  exact (getRegistry_connect_failure unreachableTm exampleCtor 2%nat start
           tt _ eq_refl).
Defined.

(** ** Hexadecimal decoding on UTF-16 strings *)

(** Induction on lists, two elements at a time. *)
Lemma list_pair_ind {A} (P : list A -> Prop) :
  P [] ->
  (forall a, P [a]) ->
  (forall a b l, P l -> P (a :: b :: l)) ->
  forall l, P l.
Proof.
  intros H0 H1 H2 l.
  cut (P l /\ forall a, P (a :: l)); [tauto|].
  induction l as [|b l [IHl IHa]]; [by split|].
  split; [apply IHa|]. intros a. by apply H2.
Qed.

Lemma utf16_unhex_range c v : Utf16.unhex c = Some v -> 0 <= v < 16.
Proof.
  unfold Utf16.unhex. repeat case_decide; intros [= <-]; lia.
Qed.

Lemma low8_ofChar (c : ascii) :
  Z.land (Z.of_nat (nat_of_ascii c)) 255 = Z.of_nat (nat_of_ascii c).
Proof.
  pose proof (nat_ascii_bounded c) as Hc.
  change 255 with (Z.ones 8). rewrite Z.land_ones by lia.
  apply Z.mod_small. change (2 ^ 8) with 256. lia.
Qed.

(** On 8-bit characters the two digit tables are the same. *)
Lemma utf16_unhex_ofChar (c : ascii) :
  Utf16.unhex (Z.of_nat (nat_of_ascii c)) = unhex c.
Proof. unfold Utf16.unhex, unhex. by rewrite low8_ofChar. Qed.

(** [hexDecode] is the restriction of [Utf16.hexDecode] to the strings of
    8-bit characters. *)
Lemma utf16_hexDecode_ofString (s : string) :
  Utf16.hexDecode (Utf16.ofString s) = hexDecode s.
Proof.
  induction s as [|a|a b s IH] using string_pair_ind; [done..|].
  simpl. rewrite !utf16_unhex_ofChar, IH. done.
Qed.

Lemma ofChar_inj (a b : ascii) :
  Z.of_nat (nat_of_ascii a) = Z.of_nat (nat_of_ascii b) -> a = b.
Proof.
  intros H%Nat2Z.inj.
  by rewrite <-(ascii_nat_embedding a), <-(ascii_nat_embedding b), H.
Qed.

(** And so is [strip0x]. *)
Lemma utf16_strip0x_ofString (s : string) :
  Utf16.strip0x (Utf16.ofString s) = Utf16.ofString (strip0x s).
Proof.
  destruct s as [|a [|b rest]]; [done|by rewrite strip0x_short|].
  destruct (decide ((a, b) = ("0"%char, "x"%char))) as [[= -> ->]|Hne].
  { done. }
  rewrite strip0x_other by done.
  simpl. unfold Utf16.strip0x.
  rewrite decide_False; [done|].
  intros [Ha Hb]. apply Hne.
  f_equal; apply ofChar_inj; [by rewrite Ha|by rewrite Hb].
Qed.

Section Utf16Pipeline.
Context {V W : Type}.
Implicit Types (node : Stargate W) (s : st W bevent)
  (messageRegistry : option (gmap string (@decoder V))).

(** The pipeline on a UTF-16 string, step by step. *)
Lemma utf16_broadcastSignedTx_run node (signedTxHex : Utf16.jsstring)
    messageRegistry s :
  Utf16.broadcastSignedTx (V := V) node signedTxHex messageRegistry s =
  if decide (signedTxHex = [])
  then (s, Throw (rethrown (mkError "signedTxHex is required")))
  else
    let txBytes := Utf16.hexDecode (Utf16.strip0x signedTxHex) in
    let rpcUrl := rpcUrlOf (COSMOS_RPC_URL node) in
    match connect node rpcUrl (world s) with
    | (w1, Throw e) =>
        (mkSt w1 (log s ++ [EvConnect rpcUrl]), Throw (rethrown e))
    | (w1, Ok _) =>
        let l2 := (log s ++ [EvConnect rpcUrl]) ++ [EvBroadcastTx txBytes] in
        match broadcastTx node txBytes w1 with
        | (w2, Throw e) => (mkSt w2 l2, Throw (rethrown e))
        | (w2, Ok result) =>
            if decide (code result <> 0)
            then (mkSt w2 l2, Throw (rethrown (rejected result)))
            else
              match messageRegistry with
              | None =>
                  (mkSt w2 l2,
                   Ok (mkBroadcastResult true (extractTxHash result)
                         None result))
              | Some registry =>
                  match extractAndDecodeMessages (msgResponses result)
                          registry with
                  | Ok ds =>
                      (mkSt w2 l2,
                       Ok (mkBroadcastResult true (extractTxHash result)
                             (Some ds) result))
                  | Throw e => (mkSt w2 l2, Throw (rethrown e))
                  end
              end
        end
    end.
Proof.
  unfold Utf16.broadcastSignedTx, try_catch, bind, emit, extern, throw, ret,
    lift.
  destruct (decide (signedTxHex = [])); [done|]. simpl.
  destruct (connect node _ (world s)) as [w1 [[]|e]]; [|done]. simpl.
  destruct (broadcastTx node _ w1) as [w2 [result|e]]; [|done].
  destruct (decide (code result <> 0)); [done|].
  destruct messageRegistry as [registry|]; [|done].
  by destruct (extractAndDecodeMessages _ registry).
Qed.

(** On a string of 8-bit characters the pipeline on UTF-16 strings is the
    pipeline on [string]. *)
Lemma utf16_broadcastSignedTx_ofString node (signedTxHex : string)
    messageRegistry s :
  Utf16.broadcastSignedTx node (Utf16.ofString signedTxHex) messageRegistry s
  = broadcastSignedTx node signedTxHex messageRegistry s.
Proof.
  rewrite utf16_broadcastSignedTx_run, broadcastSignedTx_run.
  rewrite utf16_strip0x_ofString, utf16_hexDecode_ofString.
  destruct signedTxHex as [|c rest]; [done|].
  by repeat case_decide.
Qed.

(** Once the connection is open, the decoded bytes are submitted. *)
Lemma utf16_broadcastSignedTx_log node (signedTxHex : Utf16.jsstring)
    messageRegistry s w1 :
  signedTxHex <> [] ->
  connect node (rpcUrlOf (COSMOS_RPC_URL node)) (world s) = (w1, Ok tt) ->
  log (Utf16.broadcastSignedTx node signedTxHex messageRegistry s).1 =
  log s ++ [EvConnect (rpcUrlOf (COSMOS_RPC_URL node));
            EvBroadcastTx (Utf16.hexDecode (Utf16.strip0x signedTxHex))].
Proof.
  intros Hne Hc. rewrite utf16_broadcastSignedTx_run.
  rewrite decide_False by done. simpl. rewrite Hc.
  rewrite <-(assoc_L (++)). simpl.
  destruct (broadcastTx node _ w1) as [w2 [result|e]]; [|done].
  destruct (decide (code result <> 0)); [done|].
  destruct messageRegistry as [registry|]; [|done].
  by destruct (extractAndDecodeMessages _ registry).
Qed.
End Utf16Pipeline.

Lemma utf16_hexDecode_hexPrefix s :
  Utf16.hexDecode (Utf16.hexPrefix s) = Utf16.hexDecode s.
Proof.
  induction s as [|a|a b s IH] using list_pair_ind; [done..|]. simpl.
  destruct (Utf16.unhex a) eqn:Ha, (Utf16.unhex b) eqn:Hb; simpl; [|done..].
  by rewrite Ha, Hb, IH.
Qed.

Lemma utf16_hexPrefix_well_formed s :
  Utf16.well_formed_hex (Utf16.hexPrefix s) = true.
Proof.
  unfold Utf16.well_formed_hex, Utf16.all_hex.
  induction s as [|a|a b s IH] using list_pair_ind; [done..|]. simpl.
  destruct (Utf16.unhex a) eqn:Ha, (Utf16.unhex b) eqn:Hb; simpl; [|done..].
  rewrite Ha, Hb. exact IH.
Qed.

Lemma utf16_hexPrefix_split s :
  exists rest,
    s = Utf16.hexPrefix s ++ rest /\ Utf16.no_leading_pair rest = true.
Proof.
  induction s as [|a|a b s (rest & IH & Hrest)] using list_pair_ind.
  - by exists [].
  - by exists [a].
  - simpl. destruct (Utf16.unhex a) eqn:Ha, (Utf16.unhex b) eqn:Hb.
    + exists rest. split; [|done]. simpl. by rewrite <-IH.
    + exists (a :: b :: s). split; [done|]. simpl.
      rewrite Hb. by rewrite andb_false_r.
    + exists (a :: b :: s). split; [done|]. simpl. by rewrite Ha.
    + exists (a :: b :: s). split; [done|]. simpl. by rewrite Ha.
Qed.

Lemma utf16_hexDecode_length s :
  (2 * length (Utf16.hexDecode s))%nat = length (Utf16.hexPrefix s).
Proof.
  induction s as [|a|a b s IH] using list_pair_ind; [done..|]. simpl.
  destruct (Utf16.unhex a), (Utf16.unhex b); simpl; lia.
Qed.

Lemma utf16_hexPrefix_id s :
  Utf16.well_formed_hex s = true -> Utf16.hexPrefix s = s.
Proof.
  unfold Utf16.well_formed_hex, Utf16.all_hex.
  induction s as [|a|a b s IH] using list_pair_ind; [done| |].
  { simpl. by rewrite !andb_false_r. }
  simpl. intros Hwf.
  apply andb_prop in Hwf as [Hall Hev].
  apply andb_prop in Hall as [Ha Hall].
  apply andb_prop in Hall as [Hb Hall].
  apply bool_decide_eq_true in Ha as [x ->].
  apply bool_decide_eq_true in Hb as [y ->].
  rewrite IH; [done|]. by rewrite Hall.
Qed.

(** C1, as the code has it. For every non-empty input string, whatever its
    characters, no decoding error is raised. One leading "0x" (exactly
    these two code units) is removed; the decoder then reads every code
    unit through its low 8 bits, decodes the longest prefix made of whole
    pairs of code units that read as hexadecimal digits that way, and drops
    the rest of the input; once the connection is open those bytes are
    submitted to the node. An input in which every code unit reads as a
    digit, in even number, is decoded in full. *)
Theorem broadcastSignedTx_decodes_longest_prefix {V W : Type}
    (node : Stargate W) (signedTxHex : Utf16.jsstring)
    (messageRegistry : option (gmap string (@decoder V)))
    (s : st W bevent) (w1 : W) :
  signedTxHex <> [] ->
  connect node (rpcUrlOf (COSMOS_RPC_URL node)) (world s) = (w1, Ok tt) ->
  let hex := Utf16.strip0x signedTxHex in
  log (Utf16.broadcastSignedTx node signedTxHex messageRegistry s).1 =
    log s ++ [EvConnect (rpcUrlOf (COSMOS_RPC_URL node));
              EvBroadcastTx (Utf16.hexDecode (Utf16.hexPrefix hex))] /\
  Utf16.well_formed_hex (Utf16.hexPrefix hex) = true /\
  (2 * length (Utf16.hexDecode (Utf16.hexPrefix hex)))%nat
    = length (Utf16.hexPrefix hex) /\
  (exists rest,
     hex = Utf16.hexPrefix hex ++ rest /\
     Utf16.no_leading_pair rest = true) /\
  (Utf16.well_formed_hex hex = true -> Utf16.hexPrefix hex = hex).
Proof.
  intros Hne Hc hex. split; [|split; [|split; [|split]]].
  - rewrite utf16_hexDecode_hexPrefix. by eapply utf16_broadcastSignedTx_log.
  - apply utf16_hexPrefix_well_formed.
  - rewrite utf16_hexDecode_hexPrefix. apply utf16_hexDecode_length.
  - apply utf16_hexPrefix_split.
  - apply utf16_hexPrefix_id.
Qed.

(** The inputs "0x12zz34" and "0x" followed by two dotless i (U+0131) and
    "zz": the bytes submitted are [0x12] and [0x11]. *)
Lemma broadcastSignedTx_decodes_longest_prefix_witness :
  log (Utf16.broadcastSignedTx (V := unit) acceptingNode
         (Utf16.ofString "0x12zz34") None start).1 =
    [EvConnect "http://localhost:26657"; EvBroadcastTx [18]] /\
  log (Utf16.broadcastSignedTx (V := unit) acceptingNode
         [48; 120; 305; 305; 122; 122] None start).1 =
    [EvConnect "http://localhost:26657"; EvBroadcastTx [17]].
Proof.
  split.
  - pose proof (broadcastSignedTx_decodes_longest_prefix (V := unit)
                  acceptingNode (Utf16.ofString "0x12zz34") None start tt
                  ltac:(discriminate) eq_refl) as H.
    exact (proj1 H).
  - pose proof (broadcastSignedTx_decodes_longest_prefix (V := unit)
                  acceptingNode [48; 120; 305; 305; 122; 122] None start tt
                  ltac:(discriminate) eq_refl) as H.
    exact (proj1 H).
Defined.

Lemma utf16_unhex_hexDigit upper d :
  0 <= d < 16 -> Utf16.unhex (Utf16.hexDigit upper d) = Some d.
Proof.
  intros Hd.
  assert (d = 0 \/ d = 1 \/ d = 2 \/ d = 3 \/ d = 4 \/ d = 5 \/ d = 6 \/ d = 7
          \/ d = 8 \/ d = 9 \/ d = 10 \/ d = 11 \/ d = 12 \/ d = 13 \/ d = 14
          \/ d = 15) as Hcases by lia.
  repeat (destruct Hcases as [->|Hcases]; [by destruct upper|]).
  subst. by destruct upper.
Qed.

Lemma utf16_hexDecode_bytes s : Forall is_byte (Utf16.hexDecode s).
Proof.
  induction s as [|a|a b s IH] using list_pair_ind; [constructor..|].
  simpl. destruct (Utf16.unhex a) as [hi|] eqn:Ha; [|constructor].
  destruct (Utf16.unhex b) as [lo|] eqn:Hb; [|constructor].
  apply utf16_unhex_range in Ha, Hb.
  constructor; [|exact IH].
  unfold is_byte. rewrite hex_pair_value by done. lia.
Qed.

(** X1. Hex decoding reads two digits per byte, the first digit being the
    high half: the hexadecimal spelling of any byte sequence, in upper or in
    lower case, followed by any text, decodes to exactly those bytes
    followed by what the rest decodes to; and whatever the string, every
    decoded element is a byte. *)
Theorem hexDecode_spelling (upper : bool) (bs : list Z)
    (rest : Utf16.jsstring) :
  Forall is_byte bs ->
  Utf16.hexDecode (Utf16.hexSpelling upper bs ++ rest)
    = bs ++ Utf16.hexDecode rest /\
  Forall is_byte (Utf16.hexDecode rest).
Proof.
  intros Hbs. split; [|apply utf16_hexDecode_bytes].
  induction Hbs as [|b bs Hb Hbs IH]; [done|]. simpl.
  unfold is_byte in Hb.
  assert (0 <= b `div` 16 < 16) as Hhi.
  { split; [apply Z.div_pos; lia|apply Z.div_lt_upper_bound; lia]. }
  assert (0 <= b `mod` 16 < 16) as Hlo by (apply Z.mod_pos_bound; lia).
  rewrite !utf16_unhex_hexDigit by done.
  rewrite hex_pair_value by done. rewrite IH. f_equal.
  rewrite (Z.div_mod b 16) at 3 by lia. done.
Qed.

Lemma hexDecode_spelling_witness :
  Utf16.hexDecode (Utf16.ofString "AB05ff" ++ Utf16.ofString "0g12")
    = [171; 5; 255] ++ [].
Proof.
  assert (Forall is_byte [171; 5]) as H1 by (repeat constructor; done).
  assert (Forall is_byte [255]) as H2 by (repeat constructor; done).
  pose proof (proj1 (hexDecode_spelling true [171; 5]
                       (Utf16.hexSpelling false [255]
                          ++ Utf16.ofString "0g12") H1)) as Hup.
  pose proof (proj1 (hexDecode_spelling false [255]
                       (Utf16.ofString "0g12") H2)) as Hlow.
  rewrite Hlow in Hup. exact Hup.
Defined.

(** X2. Hex decoding consumes the whole string, two code units per byte and
    nothing dropped, exactly when the string has an even number of code
    units and every one of them reads as a hexadecimal digit through its
    low 8 bits. *)
Theorem hexDecode_complete_iff (s : Utf16.jsstring) :
  Utf16.well_formed_hex s = true <->
  (2 * length (Utf16.hexDecode s))%nat = length s.
Proof.
  unfold Utf16.well_formed_hex, Utf16.all_hex.
  induction s as [|a|a b s IH] using list_pair_ind.
  - done.
  - simpl. rewrite !andb_false_r. split; [done|lia].
  - simpl. destruct (Utf16.unhex a) as [hi|] eqn:Ha; simpl.
    + destruct (Utf16.unhex b) as [lo|] eqn:Hb; simpl.
      * rewrite IH. lia.
      * split; [done|lia].
    + split; [done|lia].
Qed.

(** ** Query dispatcher: the first candidate that succeeds *)

Section FirstSuccess.
Context {Req Resp W : Type}.
Implicit Types (tm : Tendermint W) (ctor : ServiceCtor Req Resp W)
  (service : Service Req Resp W) (s : st W (qevent Req Resp))
  (fn : Req -> W -> W * result Resp).

(** The loop calls [fn] on the candidates in order, from the world it is
    entered in, and returns the response of the first call that does not
    throw; the candidates after that one are not touched. *)
Lemma tryCandidates_first_success fn pre req post lastError s w2 errs w3 resp :
  allFail fn (world s) pre = Some (w2, errs) ->
  fn req w2 = (w3, Ok resp) ->
  tryCandidates fn lastError (pre ++ req :: post) s =
    (mkSt w3 (log s ++ zip_with failed pre errs ++ [QCall req (Ok resp)]),
     Ok resp).
Proof.
  revert lastError s errs.
  induction pre as [|q pre IH]; intros lastError s errs; simpl.
  { intros [= <- <-] Hreq. unfold try_catch, call. by rewrite Hreq. }
  unfold try_catch, call.
  destruct (fn q (world s)) as [w1 [r|e]] eqn:Hq; [done|].
  destruct (allFail fn w1 pre) as [[w2' errs']|] eqn:Hpre; [|done].
  intros [= <- <-] Hreq.
  rewrite (IH (Some e) (mkSt w1 (log s ++ [QCall q (Throw e)])) errs')
    by done.
  simpl. by rewrite <-(assoc_L (++)).
Qed.

(** C4. [queryAny] calls the resolved method on the candidates strictly in
    list order and returns the response of the first candidate whose call
    completes without error: when the calls on the candidates [pre] all
    fail, one after the other, and the call on the next candidate [req]
    returns [resp], then [queryAny] returns [resp], having called the
    method on [pre] and on [req], in this order, and on none of the
    candidates [post] that come after. *)
Theorem queryAny_first_success tm ctor methodName reqCandidates s
    w0 w1 service fn pre req post w2 errs w3 resp :
  tm_connect tm nodeUrl (world s) = (w0, Ok tt) ->
  ctor w0 = (w1, Ok service) ->
  readProp service methodName = Some (Method fn) ->
  reqCandidates = pre ++ req :: post ->
  allFail fn w1 pre = Some (w2, errs) ->
  fn req w2 = (w3, Ok resp) ->
  queryAny tm ctor methodName reqCandidates s =
    (mkSt (tm_disconnect tm w3)
       (log s ++ [QConnect nodeUrl] ++ zip_with failed pre errs
              ++ [QCall req (Ok resp); QDisconnect]),
     Ok resp).
Proof.
  intros Hc Hctor Hfn -> Hpre Hreq.
  rewrite queryAny_run, Hc, Hctor. simpl.
  unfold dispatch. rewrite Hfn.
  rewrite (tryCandidates_first_success fn pre req post None
             (mkSt w1 (log s ++ [QConnect nodeUrl])) w2 errs w3 resp)
    by done.
  simpl. rewrite <-?(assoc_L (++)). simpl. by rewrite <-?(assoc_L (++)).
Qed.
End FirstSuccess.

(** Candidates 1 and 2 fail, candidate 3 succeeds, candidate 4 is never
    tried. *)
Lemma queryAny_first_success_witness :
  queryAny exampleTm pickyCtor "Get" [1; 2; 3; 4]%nat start =
    (mkSt tt
       [QConnect nodeUrl;
        QCall 1%nat (Throw (mkError "bad 1"));
        QCall 2%nat (Throw (mkError "bad 2"));
        QCall 3%nat (Ok "third"); QDisconnect],
     Ok "third").
Proof.
  exact (queryAny_first_success exampleTm pickyCtor "Get" [1; 2; 3; 4]%nat
           start tt tt pickyService _ [1; 2]%nat 3%nat [4]%nat tt
           [mkError "bad 1"; mkError "bad 2"] tt "third"
           eq_refl eq_refl eq_refl eq_refl eq_refl eq_refl).
Defined.

(** ** Release of the connection *)

(** C3 does not hold of the code on every call that opens the connection:
    here the connection opens, the constructor of the service then throws,
    and [queryAny] propagates the error without any release. On the three
    paths that start once [getQueryService] has returned, the release
    happens exactly once ([queryAny_closes_once]). *)
Theorem queryAny_connection_not_released :
  tm_connect exampleTm nodeUrl (world (start (Ev := qevent nat string)))
    = (tt, Ok tt) /\
  queryAny exampleTm throwingCtor "GetRegistry" [1; 2]%nat start =
    (mkSt tt [QConnect nodeUrl], Throw (mkError "rpc is not defined")) /\
  closes (log (queryAny exampleTm throwingCtor "GetRegistry" [1; 2]%nat
                 start).1) = 0%nat.
Proof. split; [reflexivity|]. split; reflexivity. Qed.
